(** * StorageService: a versioned document store

    Shallow embedding of [src/lib/Services/StorageService.ts] of the
    paperwork repository: an append-only log of diff transactions
    ([_txStorage]) and an index of materialized views ([_idxStorage]),
    with the operations [show], [showTx], [create], [createTx], [update],
    [updateTx], [destroy], [getTxChain] and [ready].

    The two key-value stores are finite maps from string keys to records.
    Asynchronous methods are computations in a state-and-exception monad:
    [await] is the monad's bind and [throw new Error(..)] its failure.
    The collaborators imported by the file (the [diff] package, [uuidv4],
    [JSON.stringify], [Date.now], the backend's [ready]) are the fields of
    the class [Externals]. *)

From Stdlib Require Import ZArith Lia Ascii.
From stdpp Require Import gmap strings list fin_maps pretty.

Local Open Scope string_scope.
Local Open Scope Z_scope.

(** ** Data model *)

(** [enum StorageServiceTransactionTypes] *)
Inductive StorageServiceTransactionTypes : Type :=
  | Create
  | Update
  | Destroy.

(** [interface StorageServiceTransaction]; [revisesId : string|null]. *)
Record StorageServiceTransaction : Type := mkTx {
  tx_id : string;
  tx_type : StorageServiceTransactionTypes;
  tx_staticId : string;
  tx_diff : string;
  tx_revisesId : option string;
  tx_timestamp : Z
}.

(** What [applyPatch] hands back: the patched text, or the JS value
    [false] (here [None]) when the patch does not fit its base. The
    service stores this value as it comes, so [materializedView] has
    this type too. *)
Abbreviation patched := (option string).

(** [interface StorageServiceIndex]; [deletedAt : number|null]. *)
Record StorageServiceIndex : Type := mkIdx {
  idx_id : string;
  idx_latestTxId : string;
  idx_materializedView : patched;
  idx_createdAt : Z;
  idx_updatedAt : Z;
  idx_deletedAt : option Z
}.

(** The two [Storage] instances built by the constructor. *)
Inductive store : Type :=
  | TxStore    (* paperwork_tx_<dbName> *)
  | IdxStore.  (* paperwork_idx_<dbName> *)

(** JS exceptions. [Error msg] is [new Error(msg)]; [TypeError] is what
    reading a property of [null] raises; [Rejected] is a rejection coming
    out of a backend. *)
Inductive error : Type :=
  | Error (message : string)
  | TypeError
  | Rejected (reason : string).

(** The two messages the service throws, under the names the
    specification gives to those failures. *)
Definition InvalidIdentifier : error := Error "Not a valid UUID!".
Definition NotFound : error := Error "Note does not exist!".

Inductive outcome (A : Type) : Type :=
  | Ok (a : A)
  | Throw (e : error).
Arguments Ok {A} a.
Arguments Throw {A} e.

(** ** External collaborators *)

Class Externals : Type := {
  (** the documents handed to [create] and [update] *)
  Data : Type;
  (** [JSON.stringify(data, null, 2)] *)
  JSON_stringify : Data -> string;
  (** [JSON.parse(text)], by which a caller reads a view back *)
  JSON_parse : string -> option Data;
  (** [createPatch(fileName, oldStr, newStr)] of the [diff] package, on
      texts *)
  createPatch : string -> string -> string -> string;
  (** [applyPatch(source, patch)] of the [diff] package, on a text *)
  applyPatch : string -> string -> patched;
  (** [isUuid(value)] of [uuidv4], on a string *)
  isUuid : string -> bool;
  (** the token returned by the n-th call of [uuid()] *)
  uuid : nat -> string;
  (** the reading of the n-th look at the clock ([Date.now()], [new Date()]) *)
  Date_now : nat -> Z;
  (** what [ready()] of a backend resolves to (as printed), or its rejection *)
  Storage_ready : store -> outcome string
}.

(** ** State and monad *)

Record State : Type := mkState {
  txStorage : gmap string StorageServiceTransaction;
  idxStorage : gmap string StorageServiceIndex;
  drawn : nat;              (* calls of [uuid()] so far *)
  ticks : nat;              (* looks at the clock so far *)
  console : list string     (* lines written by [console.log] *)
}.

Definition M (A : Type) : Type := State -> outcome A * State.

Definition ret {A} (a : A) : M A := fun st => (Ok a, st).

Definition throw {A} (e : error) : M A := fun st => (Throw e, st).

Definition bind {A B} (c : M A) (k : A -> M B) : M B :=
  fun st =>
    match c st with
    | (Ok a, st') => k a st'
    | (Throw e, st') => (Throw e, st')
    end.

Notation "x <- c1 ;; c2" := (bind c1 (fun x => c2))
  (at level 100, c1 at next level, right associativity).
Notation "c1 ;;; c2" := (bind c1 (fun _ => c2))
  (at level 100, right associativity).

(** Modelled from the spec: the Key-Value Store behind [Storage]
    (../Storage is not part of the sources): a durable mapping from
    string key to a structured record, with get, set and list-keys.
    [get] of an absent key yields [null] ([None]), which is what the
    guard of [show] tests for. The stores modelled here always settle:
    a backend that rejects a [get] or a [set] is not part of this
    model, and no statement below speaks for such a backend, except
    where the lookup is a parameter ([show_on], [showTx_on]). *)
Definition txStorage_get (key : string) : M (option StorageServiceTransaction) :=
  fun st => (Ok (txStorage st !! key), st).

Definition txStorage_set (key : string) (v : StorageServiceTransaction) : M unit :=
  fun st => (Ok tt, mkState (<[key := v]> (txStorage st)) (idxStorage st)
                            (drawn st) (ticks st) (console st)).

Definition txStorage_keys : M (list string) :=
  fun st => (Ok (map fst (map_to_list (txStorage st))), st).

Definition idxStorage_get (key : string) : M (option StorageServiceIndex) :=
  fun st => (Ok (idxStorage st !! key), st).

Definition idxStorage_set (key : string) (v : StorageServiceIndex) : M unit :=
  fun st => (Ok tt, mkState (txStorage st) (<[key := v]> (idxStorage st))
                            (drawn st) (ticks st) (console st)).

Definition idxStorage_keys : M (list string) :=
  fun st => (Ok (map fst (map_to_list (idxStorage st))), st).

Definition console_log (line : string) : M unit :=
  fun st => (Ok tt, mkState (txStorage st) (idxStorage st)
                            (drawn st) (ticks st) (console st ++ [line])%list).

(** [id.split(':')]: the fields between the separators; a string
    without separator is its own single field. *)
Fixpoint split (sep : ascii) (s : string) : list string :=
  match s with
  | EmptyString => [EmptyString]
  | String c rest =>
      if Ascii.eqb c sep then EmptyString :: split sep rest
      else match split sep rest with
           | field :: fields => String c field :: fields
           | [] => [String c EmptyString]
           end
  end.

Section Service.
Context `{Ext : Externals}.

(** [uuid()] *)
Definition uuid_call : M string :=
  fun st => (Ok (uuid (drawn st)),
             mkState (txStorage st) (idxStorage st) (S (drawn st)) (ticks st) (console st)).

(** [Date.now()] and the reading carried by [new Date()] *)
Definition Date_now_call : M Z :=
  fun st => (Ok (Date_now (ticks st)),
             mkState (txStorage st) (idxStorage st) (drawn st) (S (ticks st)) (console st)).

(** [await storage.ready()] *)
Definition Storage_ready_call (s : store) : M string :=
  fun st => (Storage_ready s, st).

(** [isUuid] on a value that may be [undefined] (a missing array
    element): [undefined] is no UUID. *)
Definition isUuid_value (v : option string) : bool :=
  match v with
  | Some s => isUuid s
  | None => false
  end.

(** Reading a property of a value that may be [null]. *)
Definition deref {A} (v : option A) : M A :=
  match v with
  | Some a => ret a
  | None => throw TypeError
  end.

(** A stored view handed to [createPatch] as its base: the [diff]
    package works on texts and raises a TypeError on the value [false]
    that a failed [applyPatch] has left in the index. *)
Definition text_of (view : patched) : M string :=
  match view with
  | Some text => ret text
  | None => throw TypeError
  end.

(** ** The service *)

Definition _materialize (view : string) (diff : string) : patched :=
  applyPatch view diff.

Definition ready : M bool :=
  localForageTx <- Storage_ready_call TxStore ;;
  console_log localForageTx ;;;
  localForageIdx <- Storage_ready_call IdxStore ;;
  console_log localForageIdx ;;;
  ret true.

Definition index : M (list string) := idxStorage_keys.

Definition indexTx : M (list string) := txStorage_keys.

(** The body of [show], with the [get] of the index store as a
    parameter, so that it can be said what happens before that [get] is
    called, whatever it would do. *)
Definition show_on (get : string -> M (option StorageServiceIndex))
    (id : string) : M StorageServiceIndex :=
  if negb (isUuid id) then throw InvalidIdentifier
  else
    idx <- get id ;;
    match idx with
    | None => throw NotFound
    | Some idx =>
        match idx_deletedAt idx with
        | Some _ => throw NotFound
        | None => ret idx
        end
    end.

Definition show (id : string) : M StorageServiceIndex :=
  show_on idxStorage_get id.

(** The entries of all the ids, once every [show] has settled well. *)
Fixpoint show_each (ids : list string) : M (list StorageServiceIndex) :=
  match ids with
  | [] => ret []
  | id :: ids' =>
      idx <- show id ;;
      rest <- show_each ids' ;;
      ret (idx :: rest)
  end.

(** [Promise.all(ids.map(id => this.show(id)))]: every [show] is
    started before any of them is awaited, and the whole rejects with
    the earliest rejection. A [show] whose id is no UUID throws before
    its first [await], so its promise is rejected when [Promise.all]
    takes it up, ahead of every [show] that waits for its lookup: with
    such an id in the list the rejection is "Not a valid UUID!",
    wherever the id stands. The lookups settle after that; any that
    fails rejects with "Note does not exist!". *)
Definition showAll (ids : list string) : M (list StorageServiceIndex) :=
  if forallb isUuid ids then show_each ids
  else throw InvalidIdentifier.

(** The body of [showTx], with the [get] of the log store as a
    parameter. *)
Definition showTx_on (get : string -> M (option StorageServiceTransaction))
    (id : string) : M (option StorageServiceTransaction) :=
  let idUuid := split ":"%char id !! 1%nat in
  if negb (isUuid_value idUuid) then throw InvalidIdentifier
  else get id.

Definition showTx (id : string) : M (option StorageServiceTransaction) :=
  showTx_on txStorage_get id.

Definition createTx (staticId : string) (diff : string) : M string :=
  now <- Date_now_call ;;
  u <- uuid_call ;;
  let id := pretty now ++ ":" ++ u in
  let transaction :=
    {| tx_id := id; tx_type := Create; tx_staticId := staticId;
       tx_diff := diff; tx_revisesId := None; tx_timestamp := now |} in
  txStorage_set id transaction ;;;
  ret id.

Definition create (data : Data) : M string :=
  now <- Date_now_call ;;
  id <- uuid_call ;;
  let dataStr := JSON_stringify data in
  let diff := createPatch id "" dataStr in
  txId <- createTx id diff ;;
  let idx :=
    {| idx_id := id; idx_latestTxId := txId;
       idx_createdAt := now; idx_updatedAt := now; idx_deletedAt := None;
       idx_materializedView := _materialize "" diff |} in
  idxStorage_set id idx ;;;
  ret id.

Definition updateTx (id : string) (diff : string) : M string :=
  existingEntry <- showTx id ;;
  revisionId <- uuid_call ;;
  existing <- deref existingEntry ;;
  now <- Date_now_call ;;
  let transaction :=
    {| tx_id := revisionId; tx_type := Update;
       tx_staticId := tx_staticId existing;
       tx_diff := diff; tx_revisesId := Some id; tx_timestamp := now |} in
  txStorage_set revisionId transaction ;;;
  ret revisionId.

Definition update (id : string) (data : Data) : M string :=
  idx <- show id ;;
  let dataStr := JSON_stringify data in
  oldStr <- text_of (idx_materializedView idx) ;;
  let diff := createPatch id oldStr dataStr in
  txId <- updateTx (idx_latestTxId idx) diff ;;
  let view := _materialize oldStr diff in
  now <- Date_now_call ;;
  let updatedIdx :=
    {| idx_id := id; idx_latestTxId := txId;
       idx_materializedView := view;
       idx_createdAt := idx_createdAt idx;
       idx_updatedAt := now; idx_deletedAt := None |} in
  idxStorage_set id updatedIdx ;;;
  ret id.

(** [merge(idx, {'deletedAt': new Date()})]: [idx] with that one field
    overwritten. *)
Definition merge_deletedAt (idx : StorageServiceIndex) (date : Z) : StorageServiceIndex :=
  {| idx_id := idx_id idx; idx_latestTxId := idx_latestTxId idx;
     idx_materializedView := idx_materializedView idx;
     idx_createdAt := idx_createdAt idx; idx_updatedAt := idx_updatedAt idx;
     idx_deletedAt := Some date |}.

Definition destroy (id : string) : M string :=
  idx <- show id ;;
  date <- Date_now_call ;;
  let updatedIdx := merge_deletedAt idx date in
  idxStorage_set id updatedIdx ;;;
  ret id.

Definition destroyTx (id : string) : M string := ret id.

(** The recursion of [_followTxChainLinks] follows the [revisesId]
    pointers found in the log and is not structural: [fuel] bounds the
    number of nested calls, and [None] means that the walk has not
    returned within that bound. *)
Fixpoint _followTxChainLinks (fuel : nat) (txId : string) (st : State)
  : option (outcome (list StorageServiceTransaction) * State) :=
  match fuel with
  | O => None
  | S fuel' =>
      match (txLink <- showTx txId ;; deref txLink) st with
      | (Throw e, st1) => Some (Throw e, st1)
      | (Ok txLink, st1) =>
          match tx_revisesId txLink with
          | Some revisesId =>
              match _followTxChainLinks fuel' revisesId st1 with
              | Some (Ok chain, st2) => Some (Ok (chain ++ [txLink])%list, st2)
              | Some (Throw e, st2) => Some (Throw e, st2)
              | None => None
              end
          | None => Some (Ok [txLink], st1)
          end
      end
  end.

Definition getTxChain (fuel : nat) (id : string) (st : State)
  : option (outcome (list StorageServiceTransaction) * State) :=
  match show id st with
  | (Ok idx, st1) => _followTxChainLinks fuel (idx_latestTxId idx) st1
  | (Throw e, st1) => Some (Throw e, st1)
  end.

End Service.

(** ** The constructor

    [StorageConfig] as the constructor fills it, once for the log and
    once for the index of the database [dbName]. *)
Record StorageConfig : Type := mkConfig {
  name : string;
  storeName : string;
  dbKey : string;
  driverOrder : list string
}.

Record StorageServiceConfigs : Type := mkConfigs {
  _txStorageConfig : StorageConfig;
  _idxStorageConfig : StorageConfig
}.

Definition constructor (dbName : string) : StorageServiceConfigs :=
  {| _txStorageConfig :=
       {| name := "paperwork_tx_" ++ dbName;
          storeName := "paperwork_tx_" ++ dbName;
          dbKey := "paperwork";
          driverOrder := ["sqlite"; "indexeddb"; "websql"; "localstorage"] |};
     _idxStorageConfig :=
       {| name := "paperwork_idx_" ++ dbName;
          storeName := "paperwork_idx_" ++ dbName;
          dbKey := "paperwork";
          driverOrder := ["sqlite"; "indexeddb"; "websql"; "localstorage"] |} |}.

(** ** Vocabulary of the properties *)

(** Every record of the log is filed under its own [id]. *)
Definition log_keyed (st : State) : Prop :=
  map_Forall (fun key tx => tx_id tx = key) (txStorage st).

Definition is_digit (c : ascii) : bool :=
  let n := nat_of_ascii c in ((48 <=? n) && (n <=? 57))%nat.

Fixpoint all_digits (s : string) : bool :=
  match s with
  | EmptyString => true
  | String c r => is_digit c && all_digits r
  end.

(** The identifier format as the specification words it,
    [<creation-timestamp>:<random-unique-token>]: a run of decimal
    digits, one colon, a UUID. It is compared below with the guard that
    [showTx] applies and with the identifiers that [createTx] and
    [updateTx] build. *)
Definition spec_txId_format `{Externals} (id : string) : bool :=
  match split ":"%char id with
  | [stamp; token] =>
      negb (bool_decide (stamp = "")) && all_digits stamp && isUuid token
  | _ => false
  end.

(** The guard of [showTx]: the second colon-separated field is a UUID. *)
Definition showTx_guard `{Externals} (id : string) : bool :=
  isUuid_value (split ":"%char id !! 1%nat).

(** [walk_ends st txId n]: following the [revisesId] pointers of the log
    from [txId] comes to an end within [n] lookups, at a root, at an
    absent record or at an identifier that [showTx] turns down. *)
Inductive walk_ends `{Externals} (st : State) : string -> nat -> Prop :=
  | walk_refused txId :
      showTx_guard txId = false ->
      walk_ends st txId 1
  | walk_absent txId :
      showTx_guard txId = true ->
      txStorage st !! txId = None ->
      walk_ends st txId 1
  | walk_root txId tx :
      showTx_guard txId = true ->
      txStorage st !! txId = Some tx ->
      tx_revisesId tx = None ->
      walk_ends st txId 1
  | walk_link txId tx revisesId n :
      showTx_guard txId = true ->
      txStorage st !! txId = Some tx ->
      tx_revisesId tx = Some revisesId ->
      walk_ends st revisesId n ->
      walk_ends st txId (S n).

(** [free_of c s]: the character [c] does not occur in [s]. *)
Fixpoint free_of (c : ascii) (s : string) : bool :=
  match s with
  | EmptyString => true
  | String d r => negb (Ascii.eqb d c) && free_of c r
  end.

(** Every entry of the index is filed under its own [id]. *)
Definition idx_keyed (st : State) : Prop :=
  map_Forall (fun key idx => idx_id idx = key) (idxStorage st).

(** The [latestTxId] of every index entry names a record of the log,
    and that record belongs to the entry's document. *)
Definition heads_filed (st : State) : Prop :=
  map_Forall
    (fun key idx => exists tx, txStorage st !! idx_latestTxId idx = Some tx
                               /\ tx_staticId tx = key)
    (idxStorage st).

Definition consistent (st : State) : Prop :=
  log_keyed st /\ idx_keyed st /\ heads_filed st.

(** The stamps of an index entry are in order, and none is later than
    [bound]. *)
Definition stamps_in_order (bound : Z) (idx : StorageServiceIndex) : Prop :=
  idx_createdAt idx <= idx_updatedAt idx
  /\ idx_updatedAt idx <= bound
  /\ match idx_deletedAt idx with
     | Some date => idx_updatedAt idx <= date /\ date <= bound
     | None => True
     end.

(** So are the stamps of every index entry, none being later than the
    next reading of the clock. *)
Definition stamps_ordered `{Externals} (st : State) : Prop :=
  map_Forall (fun _ idx => stamps_in_order (Date_now (ticks st)) idx) (idxStorage st).



(** ** A concrete set of collaborators

    Used to run the service on explicit inputs: flat JSON objects with
    string fields, a whole-text patch format that records its base, the
    8-4-4-4-12 shape test for version-4 UUIDs, a counter for [uuid()]
    and a clock that advances by one at every reading. *)
Module Demo.

Definition dq : string := String "034"%char "".
Definition nl : string := String "010"%char "".

Definition render_field (f : string * string) : string :=
  "  " ++ dq ++ f.1 ++ dq ++ ": " ++ dq ++ f.2 ++ dq.

Fixpoint join (sep : string) (l : list string) : string :=
  match l with
  | [] => ""
  | [x] => x
  | x :: rest => x ++ sep ++ join sep rest
  end.

(** [JSON.stringify(obj, null, 2)] on an object whose fields are strings
    without characters to escape. *)
Definition stringify (obj : list (string * string)) : string :=
  match obj with
  | [] => "{}"
  | _ => "{" ++ nl ++ join ("," ++ nl) (map render_field obj) ++ nl ++ "}"
  end.

Fixpoint strip_prefix (p s : string) : option string :=
  match p, s with
  | EmptyString, _ => Some s
  | String c p', String d s' => if Ascii.eqb c d then strip_prefix p' s' else None
  | String _ _, EmptyString => None
  end.

(** A field line [  "key": "value"] with or without a trailing comma. *)
Definition parse_field (line : string) : option (string * string) :=
  match strip_prefix ("  " ++ dq) line with
  | Some rest =>
      match split "034"%char rest with
      | [k; colon; v; tail] =>
          if bool_decide (colon = ": ") && (bool_decide (tail = "") || bool_decide (tail = ","))
          then Some (k, v) else None
      | _ => None
      end
  | None => None
  end.

Fixpoint parse_fields (lines : list string) : option (list (string * string)) :=
  match lines with
  | [] => None
  | [close] => if bool_decide (close = "}") then Some [] else None
  | line :: rest =>
      match parse_field line, parse_fields rest with
      | Some f, Some fs => Some (f :: fs)
      | _, _ => None
      end
  end.

(** [JSON.parse] on the texts produced by [stringify]. *)
Definition parse (text : string) : option (list (string * string)) :=
  if bool_decide (text = "{}") then Some []
  else match split "010"%char text with
       | open :: rest => if bool_decide (open = "{") then parse_fields rest else None
       | [] => None
       end.

Definition sep : string := nl ++ "+++" ++ nl.

(** A patch is the base text, a separator line, and the new text. *)
Definition demo_createPatch (fileName : string) (oldStr : string) (newStr : string) : string :=
  oldStr ++ sep ++ newStr.

(** The patch applies when it starts with the very text it is applied
    to; otherwise the engine answers [false]. *)
Definition demo_applyPatch (source : string) (patch : string) : patched :=
  strip_prefix (source ++ sep) patch.

Definition is_hex (c : ascii) : bool :=
  let n := nat_of_ascii c in
  ((48 <=? n) && (n <=? 57) || (97 <=? n) && (n <=? 102))%nat.

Fixpoint all_hex (s : string) : bool :=
  match s with
  | EmptyString => true
  | String c r => is_hex c && all_hex r
  end.

(** xxxxxxxx-xxxx-4xxx-[89ab]xxx-xxxxxxxxxxxx *)
Definition demo_isUuid (s : string) : bool :=
  match split "-"%char s with
  | [a; b; String v c; String r d; e] =>
      all_hex a && bool_decide (String.length a = 8%nat)
      && all_hex b && bool_decide (String.length b = 4%nat)
      && Ascii.eqb v "4" && all_hex c && bool_decide (String.length c = 3%nat)
      && bool_decide (r ∈ ["8"; "9"; "a"; "b"]%char) && all_hex d
      && bool_decide (String.length d = 3%nat)
      && all_hex e && bool_decide (String.length e = 12%nat)
  | _ => false
  end.

Fixpoint zeros (n : nat) : string :=
  match n with
  | O => ""
  | S n' => "0" ++ zeros n'
  end.

(** The n-th token: n in decimal, padded to the first group. *)
Definition demo_uuid (n : nat) : string :=
  let digits := pretty n in
  zeros (8 - String.length digits) ++ digits ++ "-0000-4000-8000-000000000000".

Definition demo_Date_now (n : nat) : Z := 1700000000000 + Z.of_nat n.

#[export] Instance demo : Externals := {|
  Data := list (string * string);
  JSON_stringify := stringify;
  JSON_parse := parse;
  createPatch := demo_createPatch;
  applyPatch := demo_applyPatch;
  isUuid := demo_isUuid;
  uuid := demo_uuid;
  Date_now := demo_Date_now;
  Storage_ready := fun _ => Ok "[object Object]"
|}.

Definition st0 : State := mkState ∅ ∅ 0 0 [].

Definition title (s : string) : list (string * string) := [("title", s)].

(** The scenario [create({title: a})], [update(id1, {title: b})],
    [update(id1, {title: c})] from the empty stores. *)
Definition id1 : string := demo_uuid 0.
Definition st_created : State := (create (title "a") st0).2.
Definition st_updated : State := (update id1 (title "b") st_created).2.
Definition st_updated_twice : State := (update id1 (title "c") st_updated).2.
Definition st_destroyed : State := (destroy id1 st_created).2.

(** The root transaction of that scenario. *)
Definition root_txId : string := "1700000000001:" ++ demo_uuid 1.
Definition root_tx : StorageServiceTransaction :=
  mkTx root_txId Create id1
       (demo_createPatch id1 "" (stringify (title "a"))) None 1700000000001.

(** The same collaborators with a diff engine whose [applyPatch] turns
    every patch down. *)
Definition refusing : Externals := {|
  Data := list (string * string);
  JSON_stringify := stringify;
  JSON_parse := parse;
  createPatch := demo_createPatch;
  applyPatch := fun _ _ => None;
  isUuid := demo_isUuid;
  uuid := demo_uuid;
  Date_now := demo_Date_now;
  Storage_ready := fun _ => Ok "[object Object]"
|}.

(** The same collaborators with a diff engine whose [applyPatch] only
    applies to the empty text, as [create] needs it, and turns every
    other patch down. *)
Definition refusing_later : Externals := {|
  Data := list (string * string);
  JSON_stringify := stringify;
  JSON_parse := parse;
  createPatch := demo_createPatch;
  applyPatch := fun source patch =>
                  if bool_decide (source = "") then demo_applyPatch source patch
                  else None;
  isUuid := demo_isUuid;
  uuid := demo_uuid;
  Date_now := demo_Date_now;
  Storage_ready := fun _ => Ok "[object Object]"
|}.

(** The scenario with the document destroyed after its first update. *)
Definition st_updated_destroyed : State := (destroy id1 st_updated).2.

(** A [get] of a backend that is down. *)
Definition get_rejecting {V : Type} (key : string) : M (option V) :=
  throw (Rejected "backend down").

(** Stores whose only transaction revises itself. *)
Definition looping_txId : string := "1700000000001:" ++ demo_uuid 1.
Definition looping_tx : StorageServiceTransaction :=
  mkTx looping_txId Update id1 "" (Some looping_txId) 1700000000001.
Definition st_cycle : State :=
  mkState {[ looping_txId := looping_tx ]}
          {[ id1 := mkIdx id1 looping_txId (Some "") 1700000000000 1700000000001 None ]}
          2 2 [].

(** A log holding a record under a key whose timestamp field is no
    timestamp and which has a third field. *)
Definition odd_txId : string := "abc:" ++ demo_uuid 1 ++ ":xyz".
Definition odd_tx : StorageServiceTransaction :=
  mkTx odd_txId Create id1 "" None 0.
Definition st_odd : State := mkState {[ odd_txId := odd_tx ]} ∅ 0 0 [].

End Demo.

(** ** What the operations do, for any collaborators *)

Section Properties.
Context `{Ext : Externals}.

Ltac unfold_M :=
  unfold bind, ret, throw, deref, idxStorage_get, idxStorage_set,
    txStorage_get, txStorage_set, uuid_call, Date_now_call, console_log,
    Storage_ready_call in *; simpl in *.

Lemma show_unfold (id : string) (st : State) :
  show id st =
    if isUuid id then
      match idxStorage st !! id with
      | Some idx =>
          match idx_deletedAt idx with
          | None => (Ok idx, st)
          | Some _ => (Throw NotFound, st)
          end
      | None => (Throw NotFound, st)
      end
    else (Throw InvalidIdentifier, st).
Proof.
  unfold show, show_on. destruct (isUuid id); simpl; [| reflexivity].
  unfold_M. destruct (idxStorage st !! id) as [idx |]; [| reflexivity].
  destruct (idx_deletedAt idx); reflexivity.
Qed.

Lemma show_Ok (id : string) (st st' : State) (idx : StorageServiceIndex) :
  show id st = (Ok idx, st') <->
  st' = st /\ isUuid id = true /\ idxStorage st !! id = Some idx
  /\ idx_deletedAt idx = None.
Proof.
  rewrite show_unfold.
  destruct (isUuid id);
    [| split; [discriminate | intros (_ & Hno & _); discriminate Hno]].
  destruct (idxStorage st !! id) as [i |];
    [| split; [discriminate | intros (_ & _ & Hno & _); discriminate Hno]].
  destruct (idx_deletedAt i) eqn:Hdel.
  - split; [discriminate | intros (_ & _ & [= ->] & Hlive); congruence].
  - split; [intros [= <- <-]; auto | intros (-> & _ & [= ->] & _); reflexivity].
Qed.

Lemma show_state (id : string) (st : State) : (show id st).2 = st.
Proof.
  rewrite show_unfold.
  destruct (isUuid id); [| reflexivity].
  destruct (idxStorage st !! id) as [i |]; [| reflexivity].
  destruct (idx_deletedAt i); reflexivity.
Qed.

Lemma showTx_unfold (id : string) (st : State) :
  showTx id st =
    if showTx_guard id then (Ok (txStorage st !! id), st)
    else (Throw InvalidIdentifier, st).
Proof.
  unfold showTx, showTx_on, showTx_guard.
  destruct (isUuid_value (split ":" id !! 1%nat)); reflexivity.
Qed.

Lemma showTx_Ok (id : string) (st st' : State) (tx : option StorageServiceTransaction) :
  showTx id st = (Ok tx, st') <->
  st' = st /\ showTx_guard id = true /\ txStorage st !! id = tx.
Proof.
  rewrite showTx_unfold. destruct (showTx_guard id).
  - split; [intros [= <- <-]; auto | intros (-> & _ & ->); reflexivity].
  - split; [discriminate | intros (_ & Hno & _); discriminate Hno].
Qed.


(** What [create] writes and returns: it cannot fail. *)
Lemma create_unfold (data : Data) (st : State) :
  let now := Date_now (ticks st) in
  let id := uuid (drawn st) in
  let diff := createPatch id "" (JSON_stringify data) in
  let now' := Date_now (S (ticks st)) in
  let txId := pretty now' ++ ":" ++ uuid (S (drawn st)) in
  create data st =
    (Ok id,
     mkState (<[txId := mkTx txId Create id diff None now']> (txStorage st))
             (<[id := mkIdx id txId (applyPatch "" diff) now now None]>
                (idxStorage st))
             (S (S (drawn st))) (S (S (ticks st))) (console st)).
Proof. reflexivity. Qed.

(** What [updateTx] writes and returns when the revised transaction is
    found. *)
Lemma updateTx_found (id diff : string) (st : State) (existing : StorageServiceTransaction) :
  showTx_guard id = true ->
  txStorage st !! id = Some existing ->
  let revisionId := uuid (drawn st) in
  updateTx id diff st =
    (Ok revisionId,
     mkState (<[revisionId := mkTx revisionId Update (tx_staticId existing) diff
                                   (Some id) (Date_now (ticks st))]> (txStorage st))
             (idxStorage st) (S (drawn st)) (S (ticks st)) (console st)).
Proof.
  intros Hguard Hget. unfold updateTx, bind. rewrite showTx_unfold, Hguard.
  unfold_M. rewrite Hget. reflexivity.
Qed.

Lemma updateTx_refused (id diff : string) (st : State) :
  showTx_guard id = false ->
  updateTx id diff st = (Throw InvalidIdentifier, st).
Proof.
  intros Hguard. unfold updateTx, bind. rewrite showTx_unfold, Hguard. reflexivity.
Qed.

Lemma updateTx_Ok (id diff : string) (st st' : State) (r : string) :
  updateTx id diff st = (Ok r, st') ->
  exists existing,
    showTx_guard id = true /\ txStorage st !! id = Some existing /\
    r = uuid (drawn st) /\
    st' = mkState (<[r := mkTx r Update (tx_staticId existing) diff
                              (Some id) (Date_now (ticks st))]> (txStorage st))
                  (idxStorage st) (S (drawn st)) (S (ticks st)) (console st).
Proof.
  intros Hrun. destruct (showTx_guard id) eqn:Hguard.
  - destruct (txStorage st !! id) as [existing |] eqn:Hget.
    + rewrite (updateTx_found _ _ _ existing Hguard Hget) in Hrun.
      simpl in Hrun. injection Hrun as <- <-. eauto.
    + unfold updateTx, bind in Hrun. rewrite showTx_unfold, Hguard in Hrun.
      unfold_M. rewrite Hget in Hrun. discriminate.
  - rewrite updateTx_refused in Hrun by assumption. discriminate.
Qed.

(** All the ways [update] can go. *)
Lemma update_unfold (id : string) (data : Data) (st : State) :
  update id data st =
    if isUuid id then
      match idxStorage st !! id with
      | Some idx =>
          match idx_deletedAt idx with
          | Some _ => (Throw NotFound, st)
          | None =>
              match idx_materializedView idx with
              | None => (Throw TypeError, st)
              | Some oldStr =>
                  if showTx_guard (idx_latestTxId idx) then
                    match txStorage st !! idx_latestTxId idx with
                    | Some head =>
                        let diff := createPatch id oldStr (JSON_stringify data) in
                        let txId := uuid (drawn st) in
                        (Ok id,
                         mkState
                           (<[txId := mkTx txId Update (tx_staticId head) diff
                                           (Some (idx_latestTxId idx))
                                           (Date_now (ticks st))]>
                              (txStorage st))
                           (<[id := mkIdx id txId (applyPatch oldStr diff)
                                          (idx_createdAt idx)
                                          (Date_now (S (ticks st))) None]>
                              (idxStorage st))
                           (S (drawn st)) (S (S (ticks st))) (console st))
                    | None =>
                        (Throw TypeError,
                         mkState (txStorage st) (idxStorage st) (S (drawn st))
                                 (ticks st) (console st))
                    end
                  else (Throw InvalidIdentifier, st)
              end
          end
      | None => (Throw NotFound, st)
      end
    else (Throw InvalidIdentifier, st).
Proof.
  unfold update. unfold bind at 1. rewrite show_unfold.
  destruct (isUuid id); [| reflexivity].
  destruct (idxStorage st !! id) as [idx |]; [| reflexivity].
  destruct (idx_deletedAt idx); [reflexivity |].
  unfold bind at 1.
  destruct (idx_materializedView idx) as [oldStr |]; [| reflexivity]. simpl.
  unfold bind at 1. unfold updateTx. unfold bind at 1. rewrite showTx_unfold.
  destruct (showTx_guard (idx_latestTxId idx)); [| reflexivity].
  unfold_M. destruct (txStorage st !! idx_latestTxId idx) as [head |]; reflexivity.
Qed.

(** What [update] writes and returns on a live document whose view is
    a text and whose head transaction [showTx] delivers. *)
Lemma update_found (id : string) (data : Data) (st : State)
    (idx : StorageServiceIndex) (oldStr : string) (head : StorageServiceTransaction) :
  show id st = (Ok idx, st) ->
  idx_materializedView idx = Some oldStr ->
  showTx (idx_latestTxId idx) st = (Ok (Some head), st) ->
  let diff := createPatch id oldStr (JSON_stringify data) in
  let txId := uuid (drawn st) in
  update id data st =
    (Ok id,
     mkState (<[txId := mkTx txId Update (tx_staticId head) diff
                             (Some (idx_latestTxId idx)) (Date_now (ticks st))]>
                (txStorage st))
             (<[id := mkIdx id txId (applyPatch oldStr diff)
                            (idx_createdAt idx) (Date_now (S (ticks st))) None]>
                (idxStorage st))
             (S (drawn st)) (S (S (ticks st))) (console st)).
Proof.
  intros Hshow Hview Hhead. apply showTx_Ok in Hhead as (_ & Hguard & Hget).
  apply show_Ok in Hshow as (_ & Huuid & Hidx & Hlive).
  rewrite update_unfold, Huuid, Hidx, Hlive, Hview, Hguard, Hget. reflexivity.
Qed.

Lemma update_Ok (id : string) (data : Data) (st st' : State) (r : string) :
  update id data st = (Ok r, st') ->
  exists idx oldStr head,
    show id st = (Ok idx, st) /\
    idx_materializedView idx = Some oldStr /\
    showTx (idx_latestTxId idx) st = (Ok (Some head), st).
Proof.
  rewrite update_unfold. intros Hrun.
  destruct (isUuid id) eqn:Huuid; [| discriminate].
  destruct (idxStorage st !! id) as [idx |] eqn:Hidx; [| discriminate].
  destruct (idx_deletedAt idx) eqn:Hlive; [discriminate |].
  destruct (idx_materializedView idx) as [oldStr |] eqn:Hview; [| discriminate].
  destruct (showTx_guard (idx_latestTxId idx)) eqn:Hguard; [| discriminate].
  destruct (txStorage st !! idx_latestTxId idx) as [head |] eqn:Hget; [| discriminate].
  exists idx, oldStr, head. split; [apply show_Ok; auto |].
  split; [exact Hview |]. apply showTx_Ok. auto.
Qed.

(** What [destroy] writes and returns on a live document. *)
Lemma destroy_found (id : string) (st : State) (idx : StorageServiceIndex) :
  show id st = (Ok idx, st) ->
  destroy id st =
    (Ok id,
     mkState (txStorage st)
             (<[id := merge_deletedAt idx (Date_now (ticks st))]> (idxStorage st))
             (drawn st) (S (ticks st)) (console st)).
Proof.
  intros Hshow. unfold destroy. unfold bind at 1. rewrite Hshow. reflexivity.
Qed.

Lemma destroy_Ok (id : string) (st st' : State) (r : string) :
  destroy id st = (Ok r, st') ->
  exists idx, show id st = (Ok idx, st).
Proof.
  intros Hrun. unfold destroy in Hrun. unfold bind at 1 in Hrun.
  destruct (show id st) as [[idx | e] st1] eqn:Hshow; [| discriminate].
  assert (st1 = st) as -> by (apply show_Ok in Hshow; tauto).
  eauto.
Qed.

End Properties.

Section Claims.
Context `{Ext : Externals}.

(** The walk only reads: it hands back the state it was given, and
    every transaction of the chain it returns was delivered by [showTx]. *)
Lemma followTxChainLinks_members (fuel : nat) :
  forall (txId : string) (st st' : State) (chain : list StorageServiceTransaction),
    _followTxChainLinks fuel txId st = Some (Ok chain, st') ->
    st' = st /\
    Forall (fun tx => exists key, showTx key st = (Ok (Some tx), st)) chain.
Proof.
  induction fuel as [| fuel IH]; intros txId st st' chain Hwalk; [discriminate |].
  simpl in Hwalk. unfold bind at 1 in Hwalk.
  destruct (showTx txId st) as [[link | e] st1] eqn:Hshow; [| discriminate].
  pose proof Hshow as Hkeep. apply showTx_Ok in Hkeep as (-> & _ & _).
  destruct link as [txLink |]; simpl in Hwalk; [| discriminate].
  destruct (tx_revisesId txLink) as [revisesId |].
  - destruct (_followTxChainLinks fuel revisesId st) as [[[rest | e] st2] |] eqn:Hrest;
      try discriminate.
    injection Hwalk as <- <-.
    destruct (IH _ _ _ _ Hrest) as [-> Hall]. split; [reflexivity |].
    apply Forall_app. split; [assumption |].
    constructor; [eauto | constructor].
  - injection Hwalk as <- <-. split; [reflexivity |].
    constructor; [eauto | constructor].
Qed.

Lemma followTxChainLinks_errors (fuel : nat) :
  forall (txId : string) (st st' : State) (e : error),
    _followTxChainLinks fuel txId st = Some (Throw e, st') ->
    e = InvalidIdentifier \/ e = TypeError.
Proof.
  induction fuel as [| fuel IH]; intros txId st st' e Hwalk; [discriminate |].
  simpl in Hwalk. unfold bind at 1 in Hwalk. rewrite showTx_unfold in Hwalk.
  destruct (showTx_guard txId); [| injection Hwalk as <- _; auto].
  destruct (txStorage st !! txId) as [txLink |]; simpl in Hwalk;
    [| injection Hwalk as <- _; auto].
  destruct (tx_revisesId txLink) as [revisesId |]; [| discriminate].
  destruct (_followTxChainLinks fuel revisesId st) as [[[rest | e'] st2] |] eqn:Hrest;
    try discriminate.
  injection Hwalk as <- _. eapply IH, Hrest.
Qed.

Lemma followTxChainLinks_returns (st : State) (txId : string) (n : nat) :
  walk_ends st txId n ->
  forall fuel, (n <= fuel)%nat -> exists r, _followTxChainLinks fuel txId st = Some r.
Proof.
  induction 1 as [txId Hguard | txId Hguard Hget | txId tx Hguard Hget Hroot
                 | txId tx revisesId n Hguard Hget Hlink Hrest IH];
    intros [| fuel] Hle; try lia;
    simpl; unfold bind at 1; rewrite showTx_unfold, Hguard; try rewrite Hget; simpl.
  - eauto.
  - eauto.
  - rewrite Hroot. eauto.
  - rewrite Hlink. destruct (IH fuel ltac:(lia)) as [[[rest | e] st2] ->]; eauto.
Qed.

Lemma followTxChainLinks_ends (fuel : nat) :
  forall (st : State) (txId : string) r,
    _followTxChainLinks fuel txId st = Some r ->
    exists n, (n <= fuel)%nat /\ walk_ends st txId n.
Proof.
  induction fuel as [| fuel IH]; intros st txId r Hwalk; [discriminate |].
  simpl in Hwalk. unfold bind at 1 in Hwalk. rewrite showTx_unfold in Hwalk.
  destruct (showTx_guard txId) eqn:Hguard.
  2: { exists 1%nat. split; [lia | by apply walk_refused]. }
  destruct (txStorage st !! txId) as [txLink |] eqn:Hget; simpl in Hwalk.
  2: { exists 1%nat. split; [lia | by apply walk_absent]. }
  destruct (tx_revisesId txLink) as [revisesId |] eqn:Hlink.
  2: { exists 1%nat. split; [lia | by eapply walk_root]. }
  destruct (_followTxChainLinks fuel revisesId st) as [r' |] eqn:Hrest.
  2: { discriminate. }
  destruct (IH _ _ _ Hrest) as (n & Hle & Hends).
  exists (S n). split; [lia | by eapply walk_link].
Qed.

Lemma spec_txId_format_guard (id : string) :
  spec_txId_format id = true -> showTx_guard id = true.
Proof.
  unfold spec_txId_format, showTx_guard.
  destruct (split ":" id) as [| stamp [| token [| extra rest]]]; try discriminate.
  simpl. intros Hfmt. apply andb_prop in Hfmt as [_ Htoken]. exact Htoken.
Qed.

(** The head transaction of a document, as [update] needs it. *)
Lemma update_Ok_explicit (id : string) (data : Data) (st st' : State) (r : string) :
  update id data st = (Ok r, st') ->
  exists idx oldStr head,
    show id st = (Ok idx, st) /\
    idx_materializedView idx = Some oldStr /\
    showTx (idx_latestTxId idx) st = (Ok (Some head), st) /\
    r = id /\
    let diff := createPatch id oldStr (JSON_stringify data) in
    let txId := uuid (drawn st) in
    st' = mkState (<[txId := mkTx txId Update (tx_staticId head) diff
                                  (Some (idx_latestTxId idx)) (Date_now (ticks st))]>
                     (txStorage st))
                  (<[id := mkIdx id txId (applyPatch oldStr diff)
                                 (idx_createdAt idx) (Date_now (S (ticks st))) None]>
                     (idxStorage st))
                  (S (drawn st)) (S (S (ticks st))) (console st).
Proof.
  intros Hrun.
  destruct (update_Ok _ _ _ _ _ Hrun) as (idx & oldStr & head & Hshow & Hview & Hhead).
  exists idx, oldStr, head.
  rewrite (update_found _ data _ _ _ _ Hshow Hview Hhead) in Hrun.
  injection Hrun as <- <-. auto 6.
Qed.

Lemma update_Throw (id : string) (data : Data) (st st' : State) (e : error) :
  update id data st = (Throw e, st') ->
  e = InvalidIdentifier \/ e = NotFound \/ e = TypeError.
Proof.
  rewrite update_unfold.
  destruct (isUuid id); [| intros [= <- _]; auto].
  destruct (idxStorage st !! id) as [idx |]; [| intros [= <- _]; auto].
  destruct (idx_deletedAt idx); [intros [= <- _]; auto |].
  destruct (idx_materializedView idx) as [oldStr |]; [| intros [= <- _]; auto].
  destruct (showTx_guard (idx_latestTxId idx)); [| intros [= <- _]; auto].
  destruct (txStorage st !! idx_latestTxId idx) as [head |];
    [discriminate | intros [= <- _]; auto].
Qed.

(** C1, as amended: a successful [update(id, data)] returns the document
    id it was given. The id of the Update transaction it has appended is
    the token just drawn; it becomes [latestTxId] of the index entry and
    is not what the call returns. *)
Theorem update_returns_document_id
    (id : string) (data : Data) (st st' : State) (r : string) :
  update id data st = (Ok r, st') ->
  r = id /\
  exists entry tx,
    idxStorage st' !! id = Some entry /\
    idx_latestTxId entry = uuid (drawn st) /\
    txStorage st' !! idx_latestTxId entry = Some tx /\
    tx_type tx = Update /\
    tx_id tx = idx_latestTxId entry.
Proof.
  intros Hrun.
  destruct (update_Ok_explicit _ _ _ _ _ Hrun)
    as (idx & oldStr & head & _ & _ & _ & -> & ->).
  split; [reflexivity |]. simpl.
  eexists _, _. split; [apply lookup_insert_eq |]. simpl.
  split; [reflexivity |]. split; [apply lookup_insert_eq |]. auto.
Qed.

(** What [destroy] does keep: after a successful [destroy(id)],
    [show(id)] fails with "Note does not exist!"; [showTx] answers every
    id as it did before, so what it refused before it refuses still;
    and each transaction of a chain that [getTxChain(id)] did return
    before the destroy is still delivered by [showTx] under its id. *)
Lemma destroy_keeps_what_showTx_delivers
    (id : string) (st st' : State) (r : string) :
  destroy id st = (Ok r, st') ->
  show id st' = (Throw NotFound, st') /\
  (forall txId, (showTx txId st').1 = (showTx txId st).1) /\
  (forall fuel chain st1,
      log_keyed st ->
      getTxChain fuel id st = Some (Ok chain, st1) ->
      Forall (fun tx => showTx (tx_id tx) st' = (Ok (Some tx), st')) chain).
Proof.
  intros Hrun. destruct (destroy_Ok _ _ _ _ Hrun) as (idx & Hshow).
  rewrite (destroy_found _ _ _ Hshow) in Hrun. injection Hrun as <- <-.
  pose proof Hshow as Hlive. apply show_Ok in Hlive as (_ & Huuid & _ & _).
  split; [| split].
  - rewrite show_unfold, Huuid. simpl. rewrite lookup_insert_eq. reflexivity.
  - intros txId. rewrite !showTx_unfold. destruct (showTx_guard txId); reflexivity.
  - intros fuel chain st1 Hkeyed Hchain. unfold getTxChain in Hchain.
    rewrite Hshow in Hchain.
    apply followTxChainLinks_members in Hchain as [_ Hall].
    eapply Forall_impl; [exact Hall |]. intros tx (key & Hkey). simpl in Hkey.
    apply showTx_Ok in Hkey as (_ & Hguard & Hget).
    rewrite (Hkeyed _ _ Hget). rewrite showTx_unfold, Hguard. simpl.
    rewrite Hget. reflexivity.
Qed.

(** C5, as amended: when [applyPatch] fails while [create] or
    [update] handles serializable data, the operation does not fail
    with PatchConflict: it succeeds and files the failure value as the
    document's [materializedView]. More generally a successful [create]
    or [update] files whatever [applyPatch] handed back, without looking
    at it. *)
Theorem patch_result_stored_unchecked :
  (forall (data : Data) (st : State),
      let id := uuid (drawn st) in
      applyPatch "" (createPatch id "" (JSON_stringify data)) = None ->
      exists st' entry,
        create data st = (Ok id, st') /\
        idxStorage st' !! id = Some entry /\
        idx_materializedView entry = None)
  /\
  (forall (id : string) (data : Data) (st : State)
          (idx : StorageServiceIndex) (oldStr : string)
          (head : StorageServiceTransaction),
      show id st = (Ok idx, st) ->
      idx_materializedView idx = Some oldStr ->
      showTx (idx_latestTxId idx) st = (Ok (Some head), st) ->
      applyPatch oldStr (createPatch id oldStr (JSON_stringify data)) = None ->
      exists st' entry,
        update id data st = (Ok id, st') /\
        idxStorage st' !! id = Some entry /\
        idx_materializedView entry = None)
  /\
  (forall (data : Data) (st st' : State) (r : string),
      create data st = (Ok r, st') ->
      exists entry,
        idxStorage st' !! r = Some entry /\
        idx_materializedView entry =
          applyPatch "" (createPatch r "" (JSON_stringify data)))
  /\
  (forall (id : string) (data : Data) (st st' : State) (r : string),
      update id data st = (Ok r, st') ->
      exists idx oldStr entry,
        idxStorage st !! id = Some idx /\
        idx_materializedView idx = Some oldStr /\
        idxStorage st' !! id = Some entry /\
        idx_materializedView entry =
          applyPatch oldStr (createPatch id oldStr (JSON_stringify data))).
Proof.
  split; [| split; [| split]].
  - intros data st id Hfails. rewrite create_unfold. cbv zeta.
    eexists _, _. split; [reflexivity |]. simpl.
    split; [apply lookup_insert_eq | exact Hfails].
  - intros id data st idx oldStr head Hshow Hview Hhead Hfails.
    rewrite (update_found _ data _ _ _ _ Hshow Hview Hhead). cbv zeta.
    eexists _, _. split; [reflexivity |]. simpl.
    split; [apply lookup_insert_eq | exact Hfails].
  - intros data st st' r. rewrite create_unfold. cbv zeta. intros [= <- <-].
    eexists. simpl. split; [apply lookup_insert_eq | reflexivity].
  - intros id data st st' r Hrun.
    destruct (update_Ok_explicit _ _ _ _ _ Hrun)
      as (idx & oldStr & head & Hshow & Hview & _ & _ & ->).
    apply show_Ok in Hshow as (_ & _ & Hget & _).
    exists idx, oldStr. eexists. split; [exact Hget |]. split; [exact Hview |].
    simpl. split; [apply lookup_insert_eq | reflexivity].
Qed.

(** C6, as amended: the chain walk keeps no visited set and no depth
    bound. It returns exactly when the [revisesId] pointers, followed
    from the head, come to an end after finitely many lookups (at a
    root, at an absent record or at an id that [showTx] turns down), and
    when it fails it fails with the error of that lookup, never with
    CorruptChain. *)
Theorem chain_walk_returns_iff_pointers_end
    (st : State) (txId : string) (fuel : nat) :
  ((exists r, _followTxChainLinks fuel txId st = Some r) <->
   (exists n, (n <= fuel)%nat /\ walk_ends st txId n))
  /\
  (forall e st', _followTxChainLinks fuel txId st = Some (Throw e, st') ->
                 e = InvalidIdentifier \/ e = TypeError).
Proof.
  split.
  - split.
    + intros [r Hwalk]. eapply followTxChainLinks_ends, Hwalk.
    + intros (n & Hle & Hends). eapply followTxChainLinks_returns; eassumption.
  - intros e st'. apply followTxChainLinks_errors.
Qed.

(** C8: [destroy(id)] never writes to the transaction log, and on a
    live document it overwrites the index entry with one that differs
    from the stored entry in [deletedAt] only, which becomes the current
    clock reading. *)
Theorem destroy_changes_only_deletedAt (id : string) (st : State) :
  txStorage (destroy id st).2 = txStorage st /\
  forall idx,
    isUuid id = true ->
    idxStorage st !! id = Some idx ->
    idx_deletedAt idx = None ->
    exists st' written,
      destroy id st = (Ok id, st') /\
      idxStorage st' = <[id := written]> (idxStorage st) /\
      idx_id written = idx_id idx /\
      idx_latestTxId written = idx_latestTxId idx /\
      idx_materializedView written = idx_materializedView idx /\
      idx_createdAt written = idx_createdAt idx /\
      idx_updatedAt written = idx_updatedAt idx /\
      idx_deletedAt written = Some (Date_now (ticks st)).
Proof.
  split.
  - unfold destroy. unfold bind at 1.
    destruct (show id st) as [[idx | e] st1] eqn:Hshow.
    + apply show_Ok in Hshow as (-> & _). reflexivity.
    + pose proof (show_state id st) as Hst. rewrite Hshow in Hst.
      simpl in *. by subst.
  - intros idx Huuid Hget Hlive.
    assert (show id st = (Ok idx, st)) as Hshow by (apply show_Ok; auto).
    rewrite (destroy_found _ _ _ Hshow).
    eexists _, _. split; [reflexivity |]. simpl. auto 10.
Qed.

(** C9, as amended: [show(id)] fails with "Not a valid UUID!"
    (InvalidIdentifier) for every id that [isUuid] turns down, and
    [showTx(id)] for every id whose second colon-separated field is
    missing or turned down by [isUuid], as is the case of "not-a-uuid";
    both do so before the store's [get] is called: whatever that [get]
    would do (answer, reject, write), the outcome is the same and the
    state is untouched, whereas an id that passes the guard does reach
    the [get]. Every id that [showTx] refuses is outside the specified
    format; the timestamp field and any further field are not
    examined. *)
Theorem malformed_ids_refused_before_lookup (id : string) :
  (isUuid id = false ->
   forall get st, show_on get id st = (Throw InvalidIdentifier, st)) /\
  (showTx_guard id = false ->
   spec_txId_format id = false /\
   forall get st, showTx_on get id st = (Throw InvalidIdentifier, st)) /\
  (forall get st, showTx_on get "not-a-uuid" st = (Throw InvalidIdentifier, st)) /\
  (isUuid id = true ->
   forall e st, show_on (fun _ => throw e) id st = (Throw e, st)) /\
  (showTx_guard id = true ->
   forall get st, showTx_on get id st = get id st) /\
  (forall st, show id st = show_on idxStorage_get id st) /\
  (forall st, showTx id st = showTx_on txStorage_get id st).
Proof.
  split; [| split; [| split; [| split; [| split; [| split]]]]].
  - intros Huuid get st. unfold show_on. rewrite Huuid. reflexivity.
  - intros Hguard. split.
    + destruct (spec_txId_format id) eqn:Hfmt; [| reflexivity].
      apply spec_txId_format_guard in Hfmt. congruence.
    + intros get st. unfold showTx_on. unfold showTx_guard in Hguard.
      rewrite Hguard. reflexivity.
  - intros get st. reflexivity.
  - intros Huuid e st. unfold show_on. rewrite Huuid. reflexivity.
  - intros Hguard get st. unfold showTx_on. unfold showTx_guard in Hguard.
    rewrite Hguard. reflexivity.
  - reflexivity.
  - reflexivity.
Qed.

(** C10: [ready()] never resolves to [false]: whatever the two backends
    resolve to, it resolves to [true]. *)
Theorem ready_never_false (st : State) :
  (ready st).1 <> Ok false /\
  (forall v1 v2,
      Storage_ready TxStore = Ok v1 ->
      Storage_ready IdxStore = Ok v2 ->
      (ready st).1 = Ok true).
Proof.
  unfold ready, bind, Storage_ready_call, console_log, ret. split.
  - destruct (Storage_ready TxStore); simpl; [| discriminate].
    destruct (Storage_ready IdxStore); simpl; discriminate.
  - intros v1 v2 -> ->. reflexivity.
Qed.

(** The round trip of [create]: with an engine that applies to its own
    base what it has just computed from it, and tokens that pass
    [isUuid], the created document reads back as the data put in. *)
Lemma create_read_roundtrip (data : Data) (st : State) :
  isUuid (uuid (drawn st)) = true ->
  applyPatch "" (createPatch (uuid (drawn st)) "" (JSON_stringify data))
    = Some (JSON_stringify data) ->
  JSON_parse (JSON_stringify data) = Some data ->
  exists st' idx,
    create data st = (Ok (uuid (drawn st)), st') /\
    show (uuid (drawn st)) st' = (Ok idx, st') /\
    idx_materializedView idx ≫= JSON_parse = Some data.
Proof.
  intros Huuid Hengine Hparse. rewrite create_unfold. simpl.
  eexists _, _. split; [reflexivity |].
  split.
  - apply show_Ok. simpl. rewrite lookup_insert_eq. auto.
  - simpl. rewrite Hengine. exact Hparse.
Qed.

(** The round trip of an [update] that succeeds. *)
Lemma update_read_roundtrip (id : string) (data2 : Data) (st st' : State) (r : string) :
  (forall base, applyPatch base (createPatch id base (JSON_stringify data2))
                = Some (JSON_stringify data2)) ->
  JSON_parse (JSON_stringify data2) = Some data2 ->
  update id data2 st = (Ok r, st') ->
  exists idx,
    show id st' = (Ok idx, st') /\
    idx_materializedView idx ≫= JSON_parse = Some data2.
Proof.
  intros Hengine Hparse Hrun.
  destruct (update_Ok_explicit _ _ _ _ _ Hrun)
    as (idx & oldStr & head & Hshow & _ & _ & _ & ->).
  apply show_Ok in Hshow as (_ & Huuid & _ & _).
  eexists. split.
  - apply show_Ok. simpl. rewrite lookup_insert_eq. auto.
  - simpl. rewrite Hengine. exact Hparse.
Qed.

(** Each operation leaves the log as it was or files one record under
    that record's own id. *)
Lemma log_keyed_insert (st : State) (tx : StorageServiceTransaction) :
  log_keyed st ->
  map_Forall (fun key t => tx_id t = key) (<[tx_id tx := tx]> (txStorage st)).
Proof. intros Hkeyed. apply map_Forall_insert_2; [reflexivity | exact Hkeyed]. Qed.

Lemma log_keyed_create (data : Data) (st : State) :
  log_keyed st -> log_keyed (create data st).2.
Proof.
  intros Hkeyed. rewrite create_unfold. unfold log_keyed. simpl.
  apply (log_keyed_insert st (mkTx _ Create _ _ None _) Hkeyed).
Qed.

Lemma log_keyed_update (id : string) (data : Data) (st : State) :
  log_keyed st -> log_keyed (update id data st).2.
Proof.
  intros Hkeyed. rewrite update_unfold.
  destruct (isUuid id); [| exact Hkeyed].
  destruct (idxStorage st !! id) as [idx |]; [| exact Hkeyed].
  destruct (idx_deletedAt idx); [exact Hkeyed |].
  destruct (idx_materializedView idx) as [oldStr |]; [| exact Hkeyed].
  destruct (showTx_guard (idx_latestTxId idx)); [| exact Hkeyed].
  destruct (txStorage st !! idx_latestTxId idx) as [head |]; [| exact Hkeyed].
  unfold log_keyed. simpl.
  apply (log_keyed_insert st (mkTx _ Update _ _ (Some _) _) Hkeyed).
Qed.

Lemma log_keyed_destroy (id : string) (st : State) :
  log_keyed st -> log_keyed (destroy id st).2.
Proof.
  intros Hkeyed. unfold destroy. unfold bind at 1. rewrite show_unfold.
  destruct (isUuid id); [| exact Hkeyed].
  destruct (idxStorage st !! id) as [idx |]; [| exact Hkeyed].
  destruct (idx_deletedAt idx); exact Hkeyed.
Qed.

End Claims.

(** ** Further properties of the service *)

Section Further.
Context `{Ext : Externals}.

Lemma map_fst_fmap {A B} (l : list (A * B)) : map fst l = l.*1.
Proof. induction l as [| x l IH]; [reflexivity | simpl; by rewrite IH]. Qed.

Lemma followTxChainLinks_state (fuel : nat) :
  forall (txId : string) (st st' : State) out,
    _followTxChainLinks fuel txId st = Some (out, st') -> st' = st.
Proof.
  induction fuel as [| fuel IH]; intros txId st st' out Hwalk; [discriminate |].
  simpl in Hwalk. unfold bind at 1 in Hwalk. rewrite showTx_unfold in Hwalk.
  destruct (showTx_guard txId); [| by injection Hwalk as _ <-].
  destruct (txStorage st !! txId) as [txLink |]; simpl in Hwalk;
    [| by injection Hwalk as _ <-].
  destruct (tx_revisesId txLink) as [revisesId |]; [| by injection Hwalk as _ <-].
  destruct (_followTxChainLinks fuel revisesId st) as [[[rest | e] st2] |] eqn:Hrest;
    try discriminate; apply IH in Hrest as ->; by injection Hwalk as _ <-.
Qed.

Lemma show_each_cons (id : string) (ids : list string) (st : State) :
  (show_each ids st).2 = st ->
  show_each (id :: ids) st =
    match (show id st).1 with
    | Throw e => (Throw e, st)
    | Ok idx =>
        match (show_each ids st).1 with
        | Ok rest => (Ok (idx :: rest), st)
        | Throw e => (Throw e, st)
        end
    end.
Proof.
  intros Hrest. simpl. unfold bind at 1.
  pose proof (show_state id st) as Hst.
  destruct (show id st) as [[idx | e] st1]; simpl in *; subst st1; [| reflexivity].
  unfold bind at 1. destruct (show_each ids st) as [[rest | e] st2]; simpl in *;
    subst st2; reflexivity.
Qed.

Lemma show_each_state (ids : list string) (st : State) : (show_each ids st).2 = st.
Proof.
  induction ids as [| id ids IH]; [reflexivity |].
  rewrite (show_each_cons _ _ _ IH).
  destruct (show id st).1; [| reflexivity].
  destruct (show_each ids st).1; reflexivity.
Qed.

Lemma showAll_unfold (ids : list string) (st : State) :
  showAll ids st =
    if forallb isUuid ids then show_each ids st else (Throw InvalidIdentifier, st).
Proof. unfold showAll. destruct (forallb isUuid ids); reflexivity. Qed.

Lemma showAll_state (ids : list string) (st : State) : (showAll ids st).2 = st.
Proof.
  rewrite showAll_unfold. destruct (forallb isUuid ids); [| reflexivity].
  apply show_each_state.
Qed.

(** A list that [forallb isUuid] turns down holds an id that [show]
    refuses. *)
Lemma forallb_isUuid_false (ids : list string) (st : State) :
  forallb isUuid ids = false ->
  exists id, id ∈ ids /\ (show id st).1 = Throw InvalidIdentifier.
Proof.
  induction ids as [| id ids IH]; [discriminate |]. simpl.
  destruct (isUuid id) eqn:Huuid; simpl.
  - intros Hrest. destruct (IH Hrest) as (id' & Hin & Hfail).
    exists id'. split; [by apply list_elem_of_further | exact Hfail].
  - intros _. exists id. split; [apply list_elem_of_here |].
    by rewrite show_unfold, Huuid.
Qed.

(** X1: the log and the index of a database never share a store name,
    and two databases share one only if they have the same [dbName];
    each store is opened under its own name. *)
Theorem store_names_distinct (a b : string) :
  name (_txStorageConfig (constructor a)) <> name (_idxStorageConfig (constructor b)) /\
  (name (_txStorageConfig (constructor a)) = name (_txStorageConfig (constructor b))
   <-> a = b) /\
  (name (_idxStorageConfig (constructor a)) = name (_idxStorageConfig (constructor b))
   <-> a = b) /\
  storeName (_txStorageConfig (constructor a)) = name (_txStorageConfig (constructor a)) /\
  storeName (_idxStorageConfig (constructor a)) = name (_idxStorageConfig (constructor a)).
Proof.
  simpl. split; [cbv [String.append]; discriminate |].
  split; [split; [apply String.app_inj | by intros ->] |].
  split; [split; [apply String.app_inj | by intros ->] |].
  split; reflexivity.
Qed.

(** X2: the reading operations [show], [showTx], [showAll], [index],
    [indexTx] and [getTxChain], and [destroyTx], hand back the state
    they were given, whether they succeed or fail: nothing is written,
    no token is drawn and the clock is not read. *)
Theorem reads_never_write (st : State) :
  (forall id, (show id st).2 = st) /\
  (forall id, (showTx id st).2 = st) /\
  (forall ids, (showAll ids st).2 = st) /\
  (index st).2 = st /\
  (indexTx st).2 = st /\
  (forall id, destroyTx id st = (Ok id, st)) /\
  (forall fuel id out st', getTxChain fuel id st = Some (out, st') -> st' = st).
Proof.
  split; [intros id; apply show_state |].
  split; [intros id; rewrite showTx_unfold; by destruct (showTx_guard id) |].
  split; [intros ids; apply showAll_state |].
  split; [reflexivity |]. split; [reflexivity |]. split; [reflexivity |].
  intros fuel id out st' Hchain. unfold getTxChain in Hchain.
  pose proof (show_state id st) as Hst.
  destruct (show id st) as [[idx | e] st1]; simpl in Hst; subst st1.
  - eapply followTxChainLinks_state, Hchain.
  - by injection Hchain as _ <-.
Qed.

(** What the shows yield together, by induction on the ids. *)
Lemma show_each_outcomes (ids : list string) (st : State) :
  (forall l, (show_each ids st).1 = Ok l <->
             Forall2 (fun id idx => (show id st).1 = Ok idx) ids l) /\
  (forall e, (show_each ids st).1 = Throw e ->
             exists id, id ∈ ids /\ (show id st).1 = Throw e).
Proof.
  induction ids as [| id ids [IHok IHthrow]].
  - split.
    + intros l. simpl. split.
      * intros [= <-]. constructor.
      * intros Hall. by inversion Hall.
    + intros e. discriminate.
  - rewrite (show_each_cons _ _ _ (show_each_state ids st)). split.
    + intros l. destruct (show id st).1 as [idx | e] eqn:Hshow.
      * destruct (show_each ids st).1 as [rest | e] eqn:Hrest; simpl.
        -- split.
           ++ intros [= <-]. constructor; [exact Hshow | by apply IHok].
           ++ intros Hall. inversion Hall as [| ? idx' ? rest' Hhead Htail]; subst.
              apply IHok in Htail. congruence.
        -- split; [discriminate |].
           intros Hall. inversion Hall as [| ? idx' ? rest' Hhead Htail]; subst.
           apply IHok in Htail. discriminate.
      * simpl. split; [discriminate |].
        intros Hall. inversion Hall; subst. congruence.
    + intros e. destruct (show id st).1 as [idx | e'] eqn:Hshow.
      * destruct (show_each ids st).1 as [rest | e'] eqn:Hrest; simpl; [discriminate |].
        intros [= ->]. destruct (IHthrow e eq_refl) as (id' & Hin & Hfail).
        exists id'. split; [by apply list_elem_of_further | exact Hfail].
      * simpl. intros [= ->]. exists id. split; [apply list_elem_of_here | exact Hshow].
Qed.

(** What [showAll] yields. *)
Lemma showAll_outcomes (ids : list string) (st : State) :
  (forall l, (showAll ids st).1 = Ok l <->
             Forall2 (fun id idx => (show id st).1 = Ok idx) ids l) /\
  (forall e, (showAll ids st).1 = Throw e ->
             exists id, id ∈ ids /\ (show id st).1 = Throw e).
Proof.
  rewrite showAll_unfold.
  destruct (forallb isUuid ids) eqn:Hall; [apply show_each_outcomes |].
  destruct (forallb_isUuid_false ids st Hall) as (id & Hin & Hfail).
  split.
  - intros l. split; [discriminate |]. intros Hshown.
    apply list_elem_of_lookup in Hin as [i Hi].
    destruct (Forall2_lookup_l _ _ _ _ _ Hshown Hi) as (entry & _ & Hok). congruence.
  - intros e [= <-]. eauto.
Qed.

(** X3: [showAll(ids)] yields the entries of all the ids, in the order
    of [ids], exactly when [show] succeeds on each of them; otherwise it
    fails with the error [show] gives for one of the ids, and there is
    no partial result. *)
Theorem showAll_all_or_nothing (ids : list string) (st : State) :
  (forall l, (showAll ids st).1 = Ok l <->
             Forall2 (fun id idx => (show id st).1 = Ok idx) ids l) /\
  (forall e, (showAll ids st).1 = Throw e ->
             exists id, id ∈ ids /\ (show id st).1 = Throw e).
Proof. apply showAll_outcomes. Qed.

(** The keys that the two listings return. *)
Lemma store_keys_listed (st : State) :
  exists ids txIds,
    index st = (Ok ids, st) /\ indexTx st = (Ok txIds, st) /\
    NoDup ids /\ NoDup txIds /\
    (forall key, key ∈ ids <-> is_Some (idxStorage st !! key)) /\
    (forall key, key ∈ txIds <-> is_Some (txStorage st !! key)).
Proof.
  eexists _, _. split; [reflexivity |]. split; [reflexivity |].
  rewrite !map_fst_fmap.
  split; [apply NoDup_fst_map_to_list |]. split; [apply NoDup_fst_map_to_list |].
  split; intros key; rewrite list_elem_of_fmap; split.
  - intros ([k v] & -> & Hin). apply elem_of_map_to_list in Hin. by eexists.
  - intros [v Hv]. exists (key, v). split; [reflexivity | by apply elem_of_map_to_list].
  - intros ([k v] & -> & Hin). apply elem_of_map_to_list in Hin. by eexists.
  - intros [v Hv]. exists (key, v). split; [reflexivity | by apply elem_of_map_to_list].
Qed.

(** X4: [index()] and [indexTx()] list each key of their store once,
    and nothing else; [index()] does not look at [deletedAt]. *)
Theorem index_lists_exactly_the_keys (st : State) :
  exists ids txIds,
    index st = (Ok ids, st) /\ indexTx st = (Ok txIds, st) /\
    NoDup ids /\ NoDup txIds /\
    (forall key, key ∈ ids <-> is_Some (idxStorage st !! key)) /\
    (forall key, key ∈ txIds <-> is_Some (txStorage st !! key)).
Proof. apply store_keys_listed. Qed.

(** X5: a destroyed document is still listed by [index()], so that
    [showAll] of the listed ids fails from then on. *)
Theorem showAll_of_index_fails_after_destroy (id : string) (st st' : State) (r : string) :
  destroy id st = (Ok r, st') ->
  exists ids e,
    index st' = (Ok ids, st') /\ id ∈ ids /\ (showAll ids st').1 = Throw e.
Proof.
  intros Hrun. destruct (destroy_Ok _ _ _ _ Hrun) as (idx & Hshow).
  rewrite (destroy_found _ _ _ Hshow) in Hrun. injection Hrun as <- <-.
  apply show_Ok in Hshow as (_ & Huuid & _ & _).
  set (st' := mkState _ _ _ _ _).
  assert (Hgone : (show id st').1 = Throw NotFound).
  { rewrite show_unfold, Huuid. simpl. by rewrite lookup_insert_eq. }
  destruct (store_keys_listed st') as (ids & _ & Hindex & _ & _ & _ & Hkeys & _).
  assert (Hin : id ∈ ids).
  { apply Hkeys. simpl. rewrite lookup_insert_eq. by eexists. }
  destruct (showAll ids st').1 as [l | e] eqn:Hall.
  - apply showAll_outcomes in Hall.
    apply list_elem_of_lookup in Hin as [i Hi].
    destruct (Forall2_lookup_l _ _ _ _ _ Hall Hi) as (entry & _ & Hok). congruence.
  - exists ids, e. auto.
Qed.

Ltac unfold_M :=
  unfold bind, ret, throw, deref, idxStorage_get, idxStorage_set,
    txStorage_get, txStorage_set, uuid_call, Date_now_call, console_log,
    Storage_ready_call in *; simpl in *.

(** All the ways [destroy] can go. *)
Lemma destroy_unfold (id : string) (st : State) :
  destroy id st =
    if isUuid id then
      match idxStorage st !! id with
      | Some idx =>
          match idx_deletedAt idx with
          | Some _ => (Throw NotFound, st)
          | None =>
              (Ok id,
               mkState (txStorage st)
                       (<[id := merge_deletedAt idx (Date_now (ticks st))]> (idxStorage st))
                       (drawn st) (S (ticks st)) (console st))
          end
      | None => (Throw NotFound, st)
      end
    else (Throw InvalidIdentifier, st).
Proof.
  unfold destroy. unfold bind at 1. rewrite show_unfold.
  destruct (isUuid id); [| reflexivity].
  destruct (idxStorage st !! id) as [idx |]; [| reflexivity].
  destruct (idx_deletedAt idx); reflexivity.
Qed.

(** X6: [ready()] passes on the rejection of a backend: if the log's
    backend rejects, nothing is logged; if the index's backend rejects,
    only the log's value has been logged; when both resolve, both values
    are logged in that order. The stores are not written in any case. *)
Theorem ready_propagates_rejections (st : State) :
  txStorage (ready st).2 = txStorage st /\
  idxStorage (ready st).2 = idxStorage st /\
  match Storage_ready TxStore with
  | Throw e => ready st = (Throw e, st)
  | Ok v1 =>
      match Storage_ready IdxStore with
      | Throw e =>
          (ready st).1 = Throw e /\ console (ready st).2 = (console st ++ [v1])%list
      | Ok v2 =>
          (ready st).1 = Ok true /\ console (ready st).2 = (console st ++ [v1; v2])%list
      end
  end.
Proof.
  unfold ready, bind, Storage_ready_call, console_log, ret.
  destruct (Storage_ready TxStore) as [v1 | e]; simpl; [| auto].
  destruct (Storage_ready IdxStore) as [v2 | e]; simpl; [| auto].
  rewrite <- app_assoc. auto.
Qed.

(** X7: on a document that is absent from the index or marked deleted,
    [show], [update], [destroy] and [getTxChain] all fail with "Note
    does not exist!" and leave the state as it was: nothing brings a
    destroyed document back. *)
Theorem absent_or_deleted_document_is_closed (id : string) (st : State) :
  isUuid id = true ->
  (forall idx, idxStorage st !! id = Some idx -> idx_deletedAt idx <> None) ->
  show id st = (Throw NotFound, st) /\
  (forall data, update id data st = (Throw NotFound, st)) /\
  destroy id st = (Throw NotFound, st) /\
  (forall fuel, getTxChain fuel id st = Some (Throw NotFound, st)).
Proof.
  intros Huuid Hclosed.
  assert (Hshow : show id st = (Throw NotFound, st)).
  { rewrite show_unfold, Huuid.
    destruct (idxStorage st !! id) as [idx |] eqn:Hget; [| reflexivity].
    destruct (idx_deletedAt idx) eqn:Hdel; [reflexivity |].
    by destruct (Hclosed idx eq_refl). }
  split; [exact Hshow |]. split; [| split].
  - intros data. unfold update. unfold bind at 1. by rewrite Hshow.
  - unfold destroy. unfold bind at 1. by rewrite Hshow.
  - intros fuel. unfold getTxChain. by rewrite Hshow.
Qed.

(** X8: on a live document the checks of [update] come before its
    writes. If the stored view is the failure value, [update] throws a
    TypeError and the state is untouched; if [showTx] refuses the head
    id, it throws "Not a valid UUID!" and the state is untouched; if the
    head id passes but no record is filed under it, it throws a
    TypeError after drawing a token, and both stores are as before. *)
Theorem update_checks_precede_writes
    (id : string) (st : State) (idx : StorageServiceIndex) :
  isUuid id = true ->
  idxStorage st !! id = Some idx ->
  idx_deletedAt idx = None ->
  (idx_materializedView idx = None ->
   forall data, update id data st = (Throw TypeError, st)) /\
  (forall oldStr,
      idx_materializedView idx = Some oldStr ->
      showTx_guard (idx_latestTxId idx) = false ->
      forall data, update id data st = (Throw InvalidIdentifier, st)) /\
  (forall oldStr,
      idx_materializedView idx = Some oldStr ->
      showTx_guard (idx_latestTxId idx) = true ->
      txStorage st !! idx_latestTxId idx = None ->
      forall data,
      exists st',
        update id data st = (Throw TypeError, st') /\
        txStorage st' = txStorage st /\ idxStorage st' = idxStorage st /\
        drawn st' = S (drawn st) /\ ticks st' = ticks st).
Proof.
  intros Huuid Hidx Hlive. split; [| split].
  - intros Hview data. by rewrite update_unfold, Huuid, Hidx, Hlive, Hview.
  - intros oldStr Hview Hguard data.
    by rewrite update_unfold, Huuid, Hidx, Hlive, Hview, Hguard.
  - intros oldStr Hview Hguard Hhead data.
    rewrite update_unfold, Huuid, Hidx, Hlive, Hview, Hguard, Hhead.
    eexists. split; [reflexivity |]. simpl. auto.
Qed.

(** X9: a record of the log is never removed, and it is kept as it is
    by [create] and by [update] unless the id built for the new
    transaction is the record's own key. *)
Theorem log_records_are_kept
    (st : State) (key : string) (tx : StorageServiceTransaction) :
  txStorage st !! key = Some tx ->
  (forall data,
      is_Some (txStorage (create data st).2 !! key) /\
      (key <> pretty (Date_now (S (ticks st))) ++ ":" ++ uuid (S (drawn st)) ->
       txStorage (create data st).2 !! key = Some tx)) /\
  (forall id data,
      is_Some (txStorage (update id data st).2 !! key) /\
      (key <> uuid (drawn st) ->
       txStorage (update id data st).2 !! key = Some tx)) /\
  (forall id, txStorage (destroy id st).2 !! key = Some tx).
Proof.
  intros Hget. split; [| split].
  - intros data. rewrite create_unfold. simpl. split.
    + rewrite lookup_insert. case_decide; [by eexists | by rewrite Hget].
    + intros Hne. by rewrite lookup_insert_ne.
  - assert (Hsame : is_Some (txStorage st !! key)
                    /\ (key <> uuid (drawn st) -> txStorage st !! key = Some tx))
      by (split; [by eexists | auto]).
    intros id data. rewrite update_unfold.
    destruct (isUuid id); [| exact Hsame].
    destruct (idxStorage st !! id) as [idx |]; [| exact Hsame].
    destruct (idx_deletedAt idx); [exact Hsame |].
    destruct (idx_materializedView idx) as [oldStr |]; [| exact Hsame].
    destruct (showTx_guard (idx_latestTxId idx)); [| exact Hsame].
    destruct (txStorage st !! idx_latestTxId idx) as [head |] eqn:Hhead; simpl;
      [| exact Hsame].
    split.
    + rewrite lookup_insert. case_decide; [by eexists | by rewrite Hget].
    + intros Hne. by rewrite lookup_insert_ne.
  - intros id. rewrite destroy_unfold.
    destruct (isUuid id); [| exact Hget].
    destruct (idxStorage st !! id) as [idx |]; [| exact Hget].
    destruct (idx_deletedAt idx); exact Hget.
Qed.

(** X10: a write touches one entry of the index: [create] the entry of
    the token it draws, [update] and [destroy] the entry of the id they
    are given; every other entry is as before. *)
Theorem writes_touch_one_index_entry (st : State) (other : string) :
  (forall data, other <> uuid (drawn st) ->
                idxStorage (create data st).2 !! other = idxStorage st !! other) /\
  (forall id data, other <> id ->
                   idxStorage (update id data st).2 !! other = idxStorage st !! other) /\
  (forall id, other <> id ->
              idxStorage (destroy id st).2 !! other = idxStorage st !! other).
Proof.
  split; [| split].
  - intros data Hne. rewrite create_unfold. simpl. by rewrite lookup_insert_ne.
  - intros id data Hne. rewrite update_unfold.
    destruct (isUuid id); [| reflexivity].
    destruct (idxStorage st !! id) as [idx |]; [| reflexivity].
    destruct (idx_deletedAt idx); [reflexivity |].
    destruct (idx_materializedView idx) as [oldStr |]; [| reflexivity].
    destruct (showTx_guard (idx_latestTxId idx)); [| reflexivity].
    destruct (txStorage st !! idx_latestTxId idx) as [head |]; simpl; [| reflexivity].
    by rewrite lookup_insert_ne.
  - intros id Hne. rewrite destroy_unfold.
    destruct (isUuid id); [| reflexivity].
    destruct (idxStorage st !! id) as [idx |]; [| reflexivity].
    destruct (idx_deletedAt idx); [reflexivity |]. simpl.
    by rewrite lookup_insert_ne.
Qed.

(** [split] on strings free of the separator. *)
Lemma split_free (sep : ascii) (s : string) :
  free_of sep s = true -> split sep s = [s].
Proof.
  induction s as [| c r IH]; [reflexivity |]. simpl.
  intros Hfree. apply andb_prop in Hfree as [Hc Hr].
  apply negb_true_iff in Hc. rewrite Hc, (IH Hr). reflexivity.
Qed.

Lemma split_app_sep (sep : ascii) (a b : string) :
  free_of sep a = true -> split sep (a ++ String sep b) = a :: split sep b.
Proof.
  induction a as [| c a IH]; simpl.
  - intros _. by rewrite Ascii.eqb_refl.
  - intros Hfree. apply andb_prop in Hfree as [Hc Ha].
    apply negb_true_iff in Hc. rewrite Hc, (IH Ha). reflexivity.
Qed.

(** The decimal rendering of a number has no colon. *)
Lemma pretty_N_go_free (x : N) :
  forall s, free_of ":" s = true -> free_of ":" (pretty_N_go x s) = true.
Proof.
  induction (N.lt_wf_0 x) as [x _ IH]. intros s Hs.
  destruct (decide (x = 0)%N) as [-> | Hpos]; [by rewrite pretty_N_go_0 |].
  rewrite pretty_N_go_step by lia.
  apply IH; [apply N.div_lt; lia |].
  cbn [free_of]. rewrite Hs, andb_true_r.
  unfold pretty_N_char. by repeat case_match.
Qed.

Lemma pretty_Z_free (z : Z) : free_of ":" (pretty z) = true.
Proof.
  assert (Hpos : forall p : positive, free_of ":" (pretty p) = true).
  { intros p. unfold pretty, pretty_positive, pretty, pretty_N.
    case_decide; [reflexivity | by apply pretty_N_go_free]. }
  unfold pretty, pretty_Z. destruct z as [| p | p]; [reflexivity | apply Hpos |].
  change ("-" +:+ pretty p) with (String "-" (pretty p)).
  cbn [free_of]. by rewrite Hpos.
Qed.

(** The id that [createTx] builds passes the guard of [showTx]
    whenever its token is a UUID without colon; a bare token of that
    kind does not. *)
Lemma showTx_guard_composite (now : Z) (u : string) :
  free_of ":" u = true ->
  showTx_guard (pretty now ++ ":" ++ u) = isUuid u.
Proof.
  intros Hfree. unfold showTx_guard.
  change (":" ++ u) with (String ":" u).
  rewrite (split_app_sep _ _ _ (pretty_Z_free now)), (split_free _ _ Hfree).
  reflexivity.
Qed.

Lemma showTx_guard_bare (u : string) :
  free_of ":" u = true -> showTx_guard u = false.
Proof.
  intros Hfree. unfold showTx_guard. by rewrite (split_free _ _ Hfree).
Qed.


(** X12: right after [create(data)], provided the two tokens drawn are
    UUIDs and the second holds no colon, [show] delivers the new entry,
    stamped once for creation and update and not deleted, and
    [getTxChain] returns the chain made of the root alone: a Create
    transaction of this document, without predecessor, whose diff is the
    patch from the empty text to the serialized data. *)
Theorem create_then_chain (data : Data) (st : State) :
  isUuid (uuid (drawn st)) = true ->
  isUuid (uuid (S (drawn st))) = true ->
  free_of ":" (uuid (S (drawn st))) = true ->
  exists entry root,
    show (uuid (drawn st)) (create data st).2 = (Ok entry, (create data st).2) /\
    idx_createdAt entry = idx_updatedAt entry /\
    idx_deletedAt entry = None /\
    idx_latestTxId entry = tx_id root /\
    (forall fuel, getTxChain (S fuel) (uuid (drawn st)) (create data st).2
                  = Some (Ok [root], (create data st).2)) /\
    tx_type root = Create /\
    tx_staticId root = uuid (drawn st) /\
    tx_revisesId root = None /\
    tx_diff root = createPatch (uuid (drawn st)) "" (JSON_stringify data).
Proof.
  intros Hid Huuid Hfree. rewrite create_unfold. cbv zeta. simpl.
  set (st' := mkState _ _ _ _ _).
  eassert (Hshow : show (uuid (drawn st)) st' = (Ok (mkIdx _ _ _ _ _ _), st')).
  { apply show_Ok. simpl. rewrite lookup_insert_eq. auto. }
  eexists _, (mkTx _ _ _ _ _ _).
  split; [exact Hshow |]. simpl.
  split; [reflexivity |]. split; [reflexivity |]. split; [reflexivity |].
  split; [| auto].
  intros fuel. unfold getTxChain. rewrite Hshow. simpl.
  unfold bind. rewrite showTx_unfold, (showTx_guard_composite _ _ Hfree), Huuid.
  simpl. rewrite lookup_insert_eq. reflexivity.
Qed.

(** X13: a first [update] right after [create] succeeds, under the same
    provisos and provided the view that [create] has filed is a text:
    it appends an Update transaction of the same document that revises
    the root, and overwrites the entry with the new head, the patched
    view and the creation stamp kept. *)
Theorem update_after_create (data data2 : Data) (st : State) (view : string) :
  isUuid (uuid (drawn st)) = true ->
  isUuid (uuid (S (drawn st))) = true ->
  free_of ":" (uuid (S (drawn st))) = true ->
  applyPatch "" (createPatch (uuid (drawn st)) "" (JSON_stringify data)) = Some view ->
  let id := uuid (drawn st) in
  let rootId := pretty (Date_now (S (ticks st))) ++ ":" ++ uuid (S (drawn st)) in
  exists st' entry head,
    update id data2 (create data st).2 = (Ok id, st') /\
    idxStorage st' !! id = Some entry /\
    idx_latestTxId entry = uuid (S (S (drawn st))) /\
    idx_materializedView entry
    = applyPatch view (createPatch id view (JSON_stringify data2)) /\
    idx_createdAt entry = Date_now (ticks st) /\
    idx_deletedAt entry = None /\
    txStorage st' !! idx_latestTxId entry = Some head /\
    tx_type head = Update /\
    tx_staticId head = id /\
    tx_revisesId head = Some rootId.
Proof.
  intros Hid Huuid Hfree Hview id rootId. subst id rootId.
  rewrite create_unfold. cbv zeta. simpl.
  rewrite update_unfold, Hid. simpl.
  rewrite lookup_insert_eq. simpl. rewrite Hview.
  rewrite (showTx_guard_composite _ _ Hfree), Huuid, lookup_insert_eq. simpl.
  eexists _, _, _. split; [reflexivity |]. simpl.
  split; [apply lookup_insert_eq |]. simpl.
  split; [reflexivity |]. split; [reflexivity |]. split; [reflexivity |].
  split; [reflexivity |]. split; [apply lookup_insert_eq |]. auto.
Qed.

(** X14: an [update] that has succeeded cannot be followed by another
    one: when the token it drew holds no colon, [showTx] refuses the new
    head, so that [getTxChain] fails with "Not a valid UUID!" and any
    further [update] of the document fails, leaving the state as it
    was: with "Not a valid UUID!" when the view filed is a text, with a
    TypeError when it is the failure value. *)
Theorem update_is_not_repeatable
    (id : string) (data : Data) (st st' : State) (r : string) :
  update id data st = (Ok r, st') ->
  free_of ":" (uuid (drawn st)) = true ->
  (exists entry, show id st' = (Ok entry, st') /\
                 showTx (idx_latestTxId entry) st' = (Throw InvalidIdentifier, st')) /\
  (forall fuel, getTxChain (S fuel) id st' = Some (Throw InvalidIdentifier, st')) /\
  (forall data',
      update id data' st'
      = (Throw (match idxStorage st' !! id ≫= idx_materializedView with
                | Some _ => InvalidIdentifier
                | None => TypeError
                end), st')).
Proof.
  intros Hrun Hfree.
  destruct (update_Ok_explicit _ _ _ _ _ Hrun)
    as (idx & oldStr & head & Hshow & _ & _ & _ & ->).
  apply show_Ok in Hshow as (_ & Huuid & _ & _).
  set (st' := mkState _ _ _ _ _).
  eassert (Hentry : show id st' = (Ok (mkIdx id (uuid (drawn st)) _ _ _ None), st')).
  { apply show_Ok. simpl. rewrite lookup_insert_eq. auto. }
  assert (Hhead : showTx (uuid (drawn st)) st' = (Throw InvalidIdentifier, st')).
  { by rewrite showTx_unfold, (showTx_guard_bare _ Hfree). }
  split; [| split].
  - eexists. split; [exact Hentry | exact Hhead].
  - intros fuel. unfold getTxChain. rewrite Hentry. simpl.
    unfold bind. by rewrite Hhead.
  - intros data'. rewrite update_unfold, Huuid. subst st'. simpl.
    rewrite lookup_insert_eq. simpl.
    destruct (applyPatch oldStr _); simpl; [| reflexivity].
    by rewrite (showTx_guard_bare _ Hfree).
Qed.

(** The shape of a chain that the walk returns. *)
Lemma followTxChainLinks_shape (fuel : nat) :
  forall (txId : string) (st st' : State) (chain : list StorageServiceTransaction),
    log_keyed st ->
    _followTxChainLinks fuel txId st = Some (Ok chain, st') ->
    (length chain <= fuel)%nat /\
    (exists root, chain !! 0%nat = Some root /\ tx_revisesId root = None) /\
    (exists head, last chain = Some head /\ txStorage st !! txId = Some head) /\
    (forall i tx next,
        chain !! i = Some tx -> chain !! S i = Some next ->
        tx_revisesId next = Some (tx_id tx)) /\
    Forall (fun tx => txStorage st !! tx_id tx = Some tx) chain.
Proof.
  induction fuel as [| fuel IH]; intros txId st st' chain Hkeyed Hwalk; [discriminate |].
  simpl in Hwalk. unfold bind at 1 in Hwalk. rewrite showTx_unfold in Hwalk.
  destruct (showTx_guard txId); [| discriminate].
  destruct (txStorage st !! txId) as [txLink |] eqn:Hget; simpl in Hwalk; [| discriminate].
  assert (Hfiled : txStorage st !! tx_id txLink = Some txLink)
    by (by rewrite (Hkeyed _ _ Hget)).
  destruct (tx_revisesId txLink) as [revisesId |] eqn:Hlink.
  - destruct (_followTxChainLinks fuel revisesId st) as [[[rest | e] st2] |] eqn:Hrest;
      try discriminate.
    injection Hwalk as <- <-.
    destruct (IH _ _ _ _ Hkeyed Hrest)
      as (Hlen & (root & Hroot & Hnull) & (prev & Hlast & Hprev) & Hlinked & Hall).
    split; [rewrite length_app; simpl; lia |].
    split; [exists root; split; [by apply lookup_app_l_Some | exact Hnull] |].
    split; [exists txLink; split; [apply last_snoc | reflexivity] |].
    split.
    + intros i tx next Htx Hnext.
      pose proof (lookup_lt_Some _ _ _ Hnext) as Hbound.
      rewrite length_app in Hbound. simpl in Hbound.
      destruct (decide (S i < length rest)%nat) as [Hin | Hend].
      * rewrite lookup_app_l in Htx, Hnext by lia. eauto.
      * assert (S i = length rest) as Hi by lia.
        rewrite (list_lookup_middle rest [] txLink (S i) Hi) in Hnext.
        injection Hnext as <-.
        rewrite lookup_app_l in Htx by lia.
        rewrite last_lookup, <- Hi in Hlast. simpl in Hlast.
        assert (tx = prev) as -> by congruence.
        by rewrite Hlink, (Hkeyed _ _ Hprev).
    + apply Forall_app. split; [exact Hall |]. by constructor.
  - injection Hwalk as <- <-. simpl.
    split; [lia |]. split; [by exists txLink |]. split; [by exists txLink |].
    split; [| by constructor].
    intros i tx next _ Hnext. by destruct i.
Qed.

(** X15: on a log whose records are filed under their own ids, the
    chain that [getTxChain(id)] returns starts with a transaction
    without predecessor, ends with the transaction that the entry's
    [latestTxId] names, and each of its transactions revises the one
    before it; all of them are records of the log, and there are no
    more of them than nested calls were made. *)
Theorem chain_is_linked_root_first
    (fuel : nat) (id : string) (st st' : State)
    (chain : list StorageServiceTransaction) :
  log_keyed st ->
  getTxChain fuel id st = Some (Ok chain, st') ->
  exists idx root head,
    show id st = (Ok idx, st) /\
    chain !! 0%nat = Some root /\ tx_revisesId root = None /\
    last chain = Some head /\ tx_id head = idx_latestTxId idx /\
    (forall i tx next,
        chain !! i = Some tx -> chain !! S i = Some next ->
        tx_revisesId next = Some (tx_id tx)) /\
    Forall (fun tx => txStorage st !! tx_id tx = Some tx) chain /\
    (length chain <= fuel)%nat.
Proof.
  intros Hkeyed Hchain. unfold getTxChain in Hchain.
  destruct (show id st) as [[idx | e] st1] eqn:Hshow; [| discriminate].
  assert (st1 = st) as -> by (apply show_Ok in Hshow; tauto).
  destruct (followTxChainLinks_shape _ _ _ _ _ Hkeyed Hchain)
    as (Hlen & (root & Hroot & Hnull) & (head & Hlast & Hhead) & Hlinked & Hall).
  exists idx, root, head. split; [reflexivity |].
  split; [exact Hroot |]. split; [exact Hnull |]. split; [exact Hlast |].
  split; [exact (Hkeyed _ _ Hhead) |]. auto.
Qed.

(** X16: the writes keep the stores consistent: if every record of the
    log and every entry of the index is filed under its own id and every
    entry's [latestTxId] names a log record of that document, the same
    holds after [create] and [update], provided the id built for the new
    transaction is not in use, and after [destroy]. *)
Theorem consistent_is_kept (st : State) :
  consistent st ->
  (forall data,
      txStorage st !! (pretty (Date_now (S (ticks st))) ++ ":" ++ uuid (S (drawn st)))
      = None ->
      consistent (create data st).2) /\
  (forall id data,
      txStorage st !! uuid (drawn st) = None ->
      consistent (update id data st).2) /\
  (forall id, consistent (destroy id st).2).
Proof.
  intros (Hlog & Hidx & Hheads). split; [| split].
  - intros data Hfresh. rewrite create_unfold.
    unfold consistent, log_keyed, idx_keyed, heads_filed. simpl. split; [| split].
    + by apply map_Forall_insert_2.
    + by apply map_Forall_insert_2.
    + apply map_Forall_insert_2.
      * eexists. split; [apply lookup_insert_eq | reflexivity].
      * eapply map_Forall_impl; [exact Hheads |].
        intros key idx (tx & Htx & Hstatic). exists tx. split; [| exact Hstatic].
        rewrite lookup_insert_ne; [exact Htx | congruence].
  - intros id data Hfresh. rewrite update_unfold.
    destruct (isUuid id); [| by repeat split].
    destruct (idxStorage st !! id) as [idx |] eqn:Hget; [| by repeat split].
    destruct (idx_deletedAt idx); [by repeat split |].
    destruct (idx_materializedView idx) as [oldStr |]; [| by repeat split].
    destruct (showTx_guard (idx_latestTxId idx)); [| by repeat split].
    destruct (txStorage st !! idx_latestTxId idx) as [head |] eqn:Hhead;
      [| by repeat split].
    unfold consistent, log_keyed, idx_keyed, heads_filed. simpl. split; [| split].
    + by apply map_Forall_insert_2.
    + by apply map_Forall_insert_2.
    + apply map_Forall_insert_2.
      * eexists. split; [apply lookup_insert_eq |]. simpl.
        destruct (Hheads _ _ Hget) as (tx & Htx & Hstatic). congruence.
      * eapply map_Forall_impl; [exact Hheads |].
        intros key idx' (tx & Htx & Hstatic). exists tx. split; [| exact Hstatic].
        rewrite lookup_insert_ne; [exact Htx | congruence].
  - intros id. rewrite destroy_unfold.
    destruct (isUuid id); [| by repeat split].
    destruct (idxStorage st !! id) as [idx |] eqn:Hget; [| by repeat split].
    destruct (idx_deletedAt idx); [by repeat split |].
    unfold consistent, log_keyed, idx_keyed, heads_filed. simpl.
    split; [exact Hlog |]. split.
    + apply map_Forall_insert_2; [exact (Hidx _ _ Hget) | exact Hidx].
    + apply map_Forall_insert_2; [exact (Hheads _ _ Hget) | exact Hheads].
Qed.

Lemma stamps_in_order_later (bound bound' : Z) (idx : StorageServiceIndex) :
  bound <= bound' -> stamps_in_order bound idx -> stamps_in_order bound' idx.
Proof.
  unfold stamps_in_order. intros Hle (Hcu & Hub & Hdel).
  split; [exact Hcu |]. split; [lia |].
  destruct (idx_deletedAt idx); [lia | exact I].
Qed.

(** X17: with a clock that never runs backwards, the writes keep the
    stamps of every index entry in order: [createdAt] is no later than
    [updatedAt], [updatedAt] no later than [deletedAt] when there is
    one, and none is ahead of the clock. *)
Theorem stamps_stay_ordered (st : State) :
  (forall m n, (m <= n)%nat -> Date_now m <= Date_now n) ->
  stamps_ordered st ->
  (forall data, stamps_ordered (create data st).2) /\
  (forall id data, stamps_ordered (update id data st).2) /\
  (forall id, stamps_ordered (destroy id st).2).
Proof.
  intros Hclock Hst.
  assert (Hlater : forall t, (ticks st <= t)%nat ->
            map_Forall (fun _ idx => stamps_in_order (Date_now t) idx) (idxStorage st)).
  { intros t Ht. eapply map_Forall_impl; [exact Hst |].
    intros key idx. apply stamps_in_order_later, Hclock, Ht. }
  split; [| split].
  - intros data. rewrite create_unfold. unfold stamps_ordered. simpl.
    apply map_Forall_insert_2; [| apply Hlater; lia].
    unfold stamps_in_order. simpl. split; [lia |]. split; [apply Hclock; lia | exact I].
  - intros id data. rewrite update_unfold.
    destruct (isUuid id); [| exact Hst].
    destruct (idxStorage st !! id) as [idx |] eqn:Hget; [| exact Hst].
    destruct (idx_deletedAt idx); [exact Hst |].
    destruct (idx_materializedView idx) as [oldStr |]; [| exact Hst].
    destruct (showTx_guard (idx_latestTxId idx)); [| exact Hst].
    destruct (txStorage st !! idx_latestTxId idx) as [head |]; [| exact Hst].
    unfold stamps_ordered. simpl.
    apply map_Forall_insert_2; [| apply Hlater; lia].
    destruct (Hst _ _ Hget) as (Hcu & Hub & _).
    pose proof (Hclock (ticks st) (S (ticks st)) ltac:(lia)).
    unfold stamps_in_order. simpl.
    split; [lia |]. split; [apply Hclock; lia | exact I].
  - intros id. rewrite destroy_unfold.
    destruct (isUuid id); [| exact Hst].
    destruct (idxStorage st !! id) as [idx |] eqn:Hget; [| exact Hst].
    destruct (idx_deletedAt idx) eqn:Hdel; [exact Hst |].
    unfold stamps_ordered. simpl.
    apply map_Forall_insert_2; [| apply Hlater; lia].
    destruct (Hst _ _ Hget) as (Hcu & Hub & _).
    pose proof (Hclock (ticks st) (S (ticks st)) ltac:(lia)).
    unfold stamps_in_order. simpl. repeat split; lia.
Qed.





End Further.

(** ** Runs on explicit inputs *)

Import Demo.

Lemma followTxChainLinks_step `{Externals} (fuel : nat) (txId : string) (st : State) :
  _followTxChainLinks (S fuel) txId st =
    match (txLink <- showTx txId ;; deref txLink) st with
    | (Throw e, st1) => Some (Throw e, st1)
    | (Ok txLink, st1) =>
        match tx_revisesId txLink with
        | Some revisesId =>
            match _followTxChainLinks fuel revisesId st1 with
            | Some (Ok chain, st2) => Some (Ok (chain ++ [txLink])%list, st2)
            | Some (Throw e, st2) => Some (Throw e, st2)
            | None => None
            end
        | None => Some (Ok [txLink], st1)
        end
    end.
Proof. reflexivity. Qed.

(** C1, counterexample: after [create({title: a})], the call
    [update(id1, {title: b})] returns [id1], while the transaction it
    has appended, the new [latestTxId], has another id. *)
Lemma update_return_is_not_the_transaction_id :
  (update id1 (title "b") st_created).1 = Ok id1 /\
  idx_latestTxId <$> idxStorage st_updated !! id1 = Some (demo_uuid 2) /\
  tx_type <$> txStorage st_updated !! demo_uuid 2 = Some Update /\
  txStorage st_created !! demo_uuid 2 = None /\
  demo_uuid 2 <> id1.
Proof. vm_compute. repeat split; congruence. Qed.

(** The amended C1 on the first update of the scenario. *)
Lemma update_returns_document_id_witness :
  id1 = id1 /\
  exists entry tx,
    idxStorage st_updated !! id1 = Some entry /\
    idx_latestTxId entry = uuid (drawn st_created) /\
    txStorage st_updated !! idx_latestTxId entry = Some tx /\
    tx_type tx = Update /\
    tx_id tx = idx_latestTxId entry.
Proof.
  apply (update_returns_document_id (Ext := demo) id1 (title "b") st_created st_updated id1).
  vm_compute. reflexivity.
Defined.

(** C2: the Update transaction that [update] appends in the scenario is
    filed under a bare token: its id has no timestamp and no colon, is
    outside the format [<creation-timestamp>:<random-unique-token>] that
    [createTx] gives to the root, and [showTx] refuses it. *)
Theorem update_transaction_id_is_bare_token :
  exists root tx,
    txStorage st_updated !! ("1700000000001:" ++ demo_uuid 1) = Some root /\
    tx_type root = Create /\
    spec_txId_format (tx_id root) = true /\
    txStorage st_updated !! demo_uuid 2 = Some tx /\
    tx_type tx = Update /\
    tx_id tx = demo_uuid 2 /\
    split ":" (tx_id tx) = [tx_id tx] /\
    spec_txId_format (tx_id tx) = false /\
    showTx (tx_id tx) st_updated = (Throw InvalidIdentifier, st_updated).
Proof.
  eexists (mkTx _ _ _ _ _ _), (mkTx _ _ _ _ _ _).
  split; [vm_compute; reflexivity |].
  split; [reflexivity |]. split; [vm_compute; reflexivity |].
  split; [vm_compute; reflexivity |].
  split; [reflexivity |]. split; [reflexivity |].
  split; [vm_compute; reflexivity |]. split; vm_compute; reflexivity.
Qed.

(** C3: in the scenario the first [update] succeeds, the second one
    fails with "Not a valid UUID!", and so does [getTxChain(id1)], after
    the first update as after the second; [show(id1)] still holds
    [{title: b}]. *)
Theorem scenario_second_update_and_chain_fail :
  (create (title "a") st0).1 = Ok id1 /\
  (update id1 (title "b") st_created).1 = Ok id1 /\
  (update id1 (title "c") st_updated).1 = Throw InvalidIdentifier /\
  (forall fuel, getTxChain (S fuel) id1 st_updated
                = Some (Throw InvalidIdentifier, st_updated)) /\
  (forall fuel, getTxChain (S fuel) id1 st_updated_twice
                = Some (Throw InvalidIdentifier, st_updated_twice)) /\
  (exists idx, show id1 st_updated_twice = (Ok idx, st_updated_twice) /\
               idx_materializedView idx ≫= JSON_parse = Some (title "b")).
Proof.
  assert (Hhead : forall st idx,
             show id1 st = (Ok idx, st) ->
             showTx (idx_latestTxId idx) st = (Throw InvalidIdentifier, st) ->
             forall fuel, getTxChain (S fuel) id1 st = Some (Throw InvalidIdentifier, st)).
  { intros st idx Hshow Hrefused fuel. unfold getTxChain. rewrite Hshow.
    rewrite followTxChainLinks_step. unfold bind. rewrite Hrefused. reflexivity. }
  split; [vm_compute; reflexivity |].
  split; [vm_compute; reflexivity |].
  split; [vm_compute; reflexivity |].
  split; [| split].
  - eapply (Hhead _ (mkIdx _ _ _ _ _ _)); vm_compute; reflexivity.
  - eapply (Hhead _ (mkIdx _ _ _ _ _ _)); vm_compute; reflexivity.
  - eexists (mkIdx _ _ _ _ _ _). split; vm_compute; reflexivity.
Qed.

(** The log of the scenario files its root under the root's id. *)
Lemma log_keyed_st_created : log_keyed st_created.
Proof. apply (log_keyed_create (Ext := demo)). apply map_Forall_empty. Qed.

(** C4: in the scenario continued by [destroy(id1)] after the first
    update, [show(id1)] does fail with "Note does not exist!" and the
    root is still delivered by [showTx]; but the Update transaction,
    which was the head of the document's chain before the destroy and is
    still in the log, is refused by [showTx] under its id, as it was
    before the destroy. *)
Theorem destroyed_document_head_is_refused :
  (destroy id1 st_updated).1 = Ok id1 /\
  show id1 st_updated_destroyed = (Throw NotFound, st_updated_destroyed) /\
  idx_latestTxId <$> idxStorage st_updated !! id1 = Some (demo_uuid 2) /\
  (exists tx,
      txStorage st_updated !! demo_uuid 2 = Some tx /\
      tx_id tx = demo_uuid 2 /\
      tx_type tx = Update /\
      tx_staticId tx = id1 /\
      tx_revisesId tx = Some root_txId /\
      txStorage st_updated_destroyed !! demo_uuid 2 = Some tx) /\
  showTx root_txId st_updated_destroyed = (Ok (Some root_tx), st_updated_destroyed) /\
  showTx (demo_uuid 2) st_updated = (Throw InvalidIdentifier, st_updated) /\
  showTx (demo_uuid 2) st_updated_destroyed
  = (Throw InvalidIdentifier, st_updated_destroyed).
Proof.
  split; [vm_compute; reflexivity |]. split; [vm_compute; reflexivity |].
  split; [vm_compute; reflexivity |]. split.
  - eexists (mkTx _ _ _ _ _ _). split; [vm_compute; reflexivity |].
    repeat split; vm_compute; reflexivity.
  - repeat split; vm_compute; reflexivity.
Qed.

(** C5, counterexample: with an engine whose [applyPatch] answers
    [false], [create] succeeds all the same and files that answer as the
    document's [materializedView]; with an engine that answers [false]
    on every base but the empty one, so does the first [update]. *)
Lemma failed_patch_is_stored :
  @applyPatch refusing "" (@createPatch refusing id1 "" (stringify (title "a"))) = None /\
  (create (Ext := refusing) (title "a") st0).1 = Ok id1 /\
  idx_materializedView
    <$> idxStorage (create (Ext := refusing) (title "a") st0).2 !! id1 = Some None /\
  idx_materializedView
    <$> idxStorage (create (Ext := refusing_later) (title "a") st0).2 !! id1
    = Some (Some (stringify (title "a"))) /\
  @applyPatch refusing_later (stringify (title "a"))
    (@createPatch refusing_later id1 (stringify (title "a")) (stringify (title "b")))
    = None /\
  (update (Ext := refusing_later) id1 (title "b")
     (create (Ext := refusing_later) (title "a") st0).2).1 = Ok id1 /\
  idx_materializedView
    <$> idxStorage (update (Ext := refusing_later) id1 (title "b")
                      (create (Ext := refusing_later) (title "a") st0).2).2 !! id1
    = Some None.
Proof. vm_compute. repeat split; reflexivity. Qed.

(** The amended C5 on a [create] and on a first [update] whose patch
    is turned down. *)
Lemma patch_result_stored_unchecked_witness :
  (exists st' entry,
      create (Ext := refusing) (title "a") st0 = (Ok id1, st') /\
      idxStorage st' !! id1 = Some entry /\
      idx_materializedView entry = None) /\
  (exists st' entry,
      update (Ext := refusing_later) id1 (title "b")
        (create (Ext := refusing_later) (title "a") st0).2 = (Ok id1, st') /\
      idxStorage st' !! id1 = Some entry /\
      idx_materializedView entry = None).
Proof.
  split.
  - destruct (patch_result_stored_unchecked (Ext := refusing)) as (Hcreate & _).
    apply (Hcreate (title "a") st0). reflexivity.
  - destruct (patch_result_stored_unchecked (Ext := refusing_later))
      as (_ & Hupdate & _).
    apply (Hupdate id1 (title "b") (create (Ext := refusing_later) (title "a") st0).2
             (mkIdx id1 root_txId (Some (stringify (title "a")))
                    1700000000000 1700000000000 None)
             (stringify (title "a")) root_tx);
      vm_compute; reflexivity.
Defined.

(** C6, counterexample: on stores whose head transaction revises
    itself, [getTxChain(id1)] does not return, whatever the number of
    nested calls allowed: it neither yields a chain nor fails with
    CorruptChain. *)
Lemma chain_walk_loops_on_cycle :
  ~ (exists fuel r, getTxChain fuel id1 st_cycle = Some r).
Proof.
  assert (Hshow : show id1 st_cycle
                  = (Ok (mkIdx id1 looping_txId (Some "") 1700000000000 1700000000001 None),
                     st_cycle)) by (vm_compute; reflexivity).
  assert (Hlink : (txLink <- showTx looping_txId ;; deref txLink) st_cycle
                  = (Ok looping_tx, st_cycle)) by (vm_compute; reflexivity).
  assert (Hloop : forall fuel, _followTxChainLinks fuel looping_txId st_cycle = None).
  { induction fuel as [| fuel IH]; [reflexivity |].
    rewrite followTxChainLinks_step, Hlink.
    change (tx_revisesId looping_tx) with (Some looping_txId).
    cbv iota beta. rewrite IH. reflexivity. }
  intros (fuel & r & Hwalk). unfold getTxChain in Hwalk. rewrite Hshow in Hwalk.
  change (idx_latestTxId _) with looping_txId in Hwalk.
  rewrite Hloop in Hwalk. discriminate.
Qed.

(** The amended C6 on the root of the scenario: the walk returns, so
    the pointers end. *)
Lemma chain_walk_returns_iff_pointers_end_witness :
  exists n, (n <= 3)%nat /\ walk_ends st_created ("1700000000001:" ++ demo_uuid 1) n.
Proof.
  apply (chain_walk_returns_iff_pointers_end (Ext := demo) st_created
           ("1700000000001:" ++ demo_uuid 1) 3).
  eexists. vm_compute. reflexivity.
Defined.

(** C7: on the live document of the scenario, already updated once,
    [update(id1, {title: c})] fails with "Not a valid UUID!" and the
    view read afterwards parses to [{title: b}], not to [{title: c}];
    the round trip does hold for [create] and for the first [update]. *)
Theorem second_update_does_not_reach_the_view :
  (exists idx, show id1 st_created = (Ok idx, st_created) /\
               idx_materializedView idx ≫= JSON_parse = Some (title "a")) /\
  (exists idx, show id1 st_updated = (Ok idx, st_updated) /\
               idx_deletedAt idx = None /\
               idx_materializedView idx ≫= JSON_parse = Some (title "b")) /\
  update id1 (title "c") st_updated = (Throw InvalidIdentifier, st_updated) /\
  (exists idx, show id1 (update id1 (title "c") st_updated).2
               = (Ok idx, (update id1 (title "c") st_updated).2) /\
               idx_materializedView idx ≫= JSON_parse = Some (title "b") /\
               idx_materializedView idx ≫= JSON_parse <> Some (title "c")).
Proof.
  split; [| split; [| split]].
  - eexists (mkIdx _ _ _ _ _ _). split; vm_compute; reflexivity.
  - eexists (mkIdx _ _ _ _ _ _). split; [| split]; vm_compute; reflexivity.
  - vm_compute. reflexivity.
  - eexists (mkIdx _ _ _ _ _ _). split; [| split]; vm_compute;
      [reflexivity | reflexivity | discriminate].
Qed.

(** C8 on the document of the scenario, right after its creation. *)
Lemma destroy_changes_only_deletedAt_witness :
  exists st' written,
    destroy id1 st_created = (Ok id1, st') /\
    idxStorage st' = <[id1 := written]> (idxStorage st_created) /\
    idx_id written = id1 /\
    idx_latestTxId written = "1700000000001:" ++ demo_uuid 1 /\
    idx_materializedView written = Some (stringify (title "a")) /\
    idx_createdAt written = 1700000000000 /\
    idx_updatedAt written = 1700000000000 /\
    idx_deletedAt written = Some 1700000000002.
Proof.
  destruct (destroy_changes_only_deletedAt (Ext := demo) id1 st_created) as [_ Hlive].
  apply (Hlive (mkIdx id1 ("1700000000001:" ++ demo_uuid 1)
                  (Some (stringify (title "a"))) 1700000000000 1700000000000 None));
    vm_compute; reflexivity.
Defined.

(** C9, counterexample: an id whose first field is no timestamp and
    which carries a third field is outside the specified format, yet
    [showTx] lets it through to the store and delivers the record filed
    under it. *)
Lemma malformed_transaction_id_reaches_the_store :
  spec_txId_format odd_txId = false /\
  showTx odd_txId st_odd = (Ok (Some odd_tx), st_odd) /\
  showTx odd_txId st0 = (Ok None, st0).
Proof. vm_compute. repeat split; reflexivity. Qed.

(** The amended C9 on the id "not-a-uuid" and a backend that is down:
    the refusal comes first; with the id of the scenario the backend is
    reached. *)
Lemma malformed_ids_refused_before_lookup_witness :
  show_on get_rejecting "not-a-uuid" st0 = (Throw InvalidIdentifier, st0) /\
  (spec_txId_format "not-a-uuid" = false /\
   forall get st, showTx_on get "not-a-uuid" st = (Throw InvalidIdentifier, st)) /\
  show_on get_rejecting id1 st0 = (Throw (Rejected "backend down"), st0).
Proof.
  destruct (malformed_ids_refused_before_lookup (Ext := demo) "not-a-uuid")
    as (Hshow & HshowTx & _).
  destruct (malformed_ids_refused_before_lookup (Ext := demo) id1)
    as (_ & _ & _ & Hreached & _).
  split; [apply Hshow; vm_compute; reflexivity |].
  split; [apply HshowTx; vm_compute; reflexivity |].
  apply (Hreached eq_refl (Rejected "backend down") st0).
Defined.

(** C10 with two backends that resolve. *)
Lemma ready_never_false_witness : (ready st0).1 = Ok true.
Proof.
  destruct (ready_never_false (Ext := demo) st0) as [_ Hboth].
  apply (Hboth "[object Object]" "[object Object]"); reflexivity.
Defined.

(** ** The further properties on the scenario *)

(** X5 on the document of the scenario, destroyed after its creation. *)
Lemma showAll_of_index_fails_after_destroy_witness :
  exists ids e,
    index st_destroyed = (Ok ids, st_destroyed) /\ id1 ∈ ids
    /\ (showAll ids st_destroyed).1 = Throw e.
Proof.
  apply (showAll_of_index_fails_after_destroy (Ext := demo) id1 st_created
           st_destroyed id1).
  vm_compute. reflexivity.
Defined.

(** X7 on the destroyed document of the scenario. *)
Lemma absent_or_deleted_document_is_closed_witness :
  show id1 st_destroyed = (Throw NotFound, st_destroyed) /\
  (forall data, update id1 data st_destroyed = (Throw NotFound, st_destroyed)) /\
  destroy id1 st_destroyed = (Throw NotFound, st_destroyed) /\
  (forall fuel, getTxChain fuel id1 st_destroyed = Some (Throw NotFound, st_destroyed)).
Proof.
  apply (absent_or_deleted_document_is_closed (Ext := demo) id1 st_destroyed).
  - vm_compute. reflexivity.
  - intros idx Hget. vm_compute in Hget. injection Hget as <-. discriminate.
Defined.

(** X8 on the second update of the scenario, which [showTx] stops. *)
Lemma update_checks_precede_writes_witness :
  update id1 (title "c") st_updated = (Throw InvalidIdentifier, st_updated).
Proof.
  destruct (update_checks_precede_writes (Ext := demo) id1 st_updated
              (mkIdx id1 (demo_uuid 2) (Some (stringify (title "b")))
                     1700000000000 1700000000003 None))
    as (_ & Hrefused & _); [vm_compute; reflexivity .. |].
  apply (Hrefused (stringify (title "b"))); vm_compute; reflexivity.
Defined.

(** X9 on the root of the scenario, through an update and a destroy. *)
Lemma log_records_are_kept_witness :
  txStorage st_updated !! root_txId = Some root_tx /\
  txStorage st_destroyed !! root_txId = Some root_tx.
Proof.
  destruct (log_records_are_kept (Ext := demo) st_created root_txId root_tx)
    as (_ & Hupdate & Hdestroy); [vm_compute; reflexivity |].
  split; [| apply Hdestroy].
  apply (Hupdate id1 (title "b")).
  intros Heq. vm_compute in Heq. discriminate Heq.
Defined.

(** X10 on a key other than the document of the scenario. *)
Lemma writes_touch_one_index_entry_witness :
  idxStorage st_destroyed !! "other" = idxStorage st_created !! "other".
Proof.
  destruct (writes_touch_one_index_entry (Ext := demo) st_created "other")
    as (_ & _ & Hdestroy).
  apply (Hdestroy id1). intros Heq. vm_compute in Heq. discriminate Heq.
Defined.


(** X12 on the creation of the scenario. *)
Lemma create_then_chain_witness :
  exists entry root,
    show id1 st_created = (Ok entry, st_created) /\
    idx_createdAt entry = idx_updatedAt entry /\
    idx_deletedAt entry = None /\
    idx_latestTxId entry = tx_id root /\
    (forall fuel, getTxChain (S fuel) id1 st_created = Some (Ok [root], st_created)) /\
    tx_type root = Create /\
    tx_staticId root = id1 /\
    tx_revisesId root = None /\
    tx_diff root = createPatch id1 "" (JSON_stringify (title "a")).
Proof.
  apply (create_then_chain (Ext := demo) (title "a") st0); vm_compute; reflexivity.
Defined.

(** X13 on the first update of the scenario. *)
Lemma update_after_create_witness :
  exists st', update id1 (title "b") st_created = (Ok id1, st').
Proof.
  destruct (update_after_create (Ext := demo) (title "a") (title "b") st0
              (stringify (title "a")))
    as (st' & entry & head & Hrun & _); [vm_compute; reflexivity .. |].
  exists st'. exact Hrun.
Defined.

(** X14 on the first update of the scenario. *)
Lemma update_is_not_repeatable_witness :
  (exists entry, show id1 st_updated = (Ok entry, st_updated) /\
                 showTx (idx_latestTxId entry) st_updated
                 = (Throw InvalidIdentifier, st_updated)) /\
  (forall fuel, getTxChain (S fuel) id1 st_updated
                = Some (Throw InvalidIdentifier, st_updated)) /\
  (forall data',
      update id1 data' st_updated
      = (Throw (match idxStorage st_updated !! id1 ≫= idx_materializedView with
                | Some _ => InvalidIdentifier
                | None => TypeError
                end), st_updated)).
Proof.
  apply (update_is_not_repeatable (Ext := demo) id1 (title "b") st_created
           st_updated id1); vm_compute; reflexivity.
Defined.

(** X15 on the chain of the scenario right after the creation. *)
Lemma chain_is_linked_root_first_witness :
  exists idx root head,
    show id1 st_created = (Ok idx, st_created) /\
    [root_tx] !! 0%nat = Some root /\ tx_revisesId root = None /\
    last [root_tx] = Some head /\ tx_id head = idx_latestTxId idx /\
    (forall i tx next,
        [root_tx] !! i = Some tx -> [root_tx] !! S i = Some next ->
        tx_revisesId next = Some (tx_id tx)) /\
    Forall (fun tx => txStorage st_created !! tx_id tx = Some tx) [root_tx] /\
    (length [root_tx] <= 3)%nat.
Proof.
  apply (chain_is_linked_root_first (Ext := demo) 3 id1 st_created st_created
           [root_tx] log_keyed_st_created).
  vm_compute. reflexivity.
Defined.

(** X16 from the empty stores to those of the scenario. *)
Lemma consistent_is_kept_witness : consistent st_created.
Proof.
  destruct (consistent_is_kept (Ext := demo) st0) as (Hcreate & _ & _).
  - repeat split; apply map_Forall_empty.
  - apply (Hcreate (title "a")). reflexivity.
Defined.

(** X17 from the empty stores to those of the scenario. *)
Lemma stamps_stay_ordered_witness :
  stamps_ordered st_created /\ stamps_ordered (destroy id1 st0).2.
Proof.
  destruct (stamps_stay_ordered (Ext := demo) st0) as (Hcreate & _ & Hdestroy).
  - intros m n Hle. simpl. unfold demo_Date_now. lia.
  - apply map_Forall_empty.
  - split; [apply (Hcreate (title "a")) | apply (Hdestroy id1)].
Defined.

